(** * gorose [Session]: binding, materialisation, writes and transactions

    A shallow embedding of [session.go].  The Go session is a mutable object
    that talks to [database/sql] and fills caller-owned variables through
    [reflect]; here the session, the variables it can reach (a small heap) and
    the history of calls made to the database are threaded explicitly through
    a state monad that can also panic. *)

From Stdlib Require Import ZArith String Ascii List.
From stdpp Require Import base numbers option list strings gmap.

Open Scope string_scope.
Open Scope list_scope.

(** ** Go types and reflection *)

Definition loc := nat.

(** A method named [BindName] is found by [MethodByName] on a pointer whatever
    its receiver, and on a plain value only if declared on the value. *)
Inductive Receiver := ByValue | ByPointer.

(** One declared field of a struct, as the field-naming convention sees it:
    the column it maps to and whether its tag says to leave it out. *)
Record FieldDecl := mkField {
  fd_name   : string;
  fd_column : string;
  fd_ignore : bool
}.

(** A record type as [parseTable] sees it: its name, its fields, and the
    table name its [BindName] method returns, for a type that declares one as
    [func() string], with the receiver it is declared on. *)
Record StructDecl := mkStruct {
  sd_name     : string;
  sd_fields   : list FieldDecl;
  sd_BindName : option (Receiver * string)
}.

(** [TMap] stands for [map[string]interface{}]; [TString] below a pointer, a
    slice or in [IDirect] is a type whose kind is string. *)
Inductive GoType :=
  | TBool | TInt | TString | TFunc | TChan
  | TStruct (d : StructDecl)
  | TMap
  | TSlice (elt : GoType)
  | TPtr (elt : GoType).

Module reflect.
Inductive Kind :=
  | Invalid | Bool | Int | String | Func | Chan | Struct | Map | Slice | Ptr.

Definition kindOf (t : GoType) : Kind :=
  match t with
  | TBool => Bool | TInt => Int | TString => String
  | TFunc => Func | TChan => Chan
  | TStruct _ => Struct | TMap => Map
  | TSlice _ => Slice | TPtr _ => Ptr
  end.

(** A [reflect.Value].  [VAddr t l] is the addressable variable of type [t]
    stored at [l] (what dereferencing a pointer gives).  A map variable is
    identified with the map object it refers to, so [VAddr TMap l] is also
    the map value that refers to the object at [l]; [VDirect TMap] is the
    nil map. *)
Inductive Value :=
  | VInvalid
  | VAddr (t : GoType) (l : loc)
  | VPtr (t : GoType) (l : loc)
  | VNilPtr (t : GoType)
  | VDirect (t : GoType).
End reflect.

(** What arrives in an [interface{}] parameter: nil, a [string], a non-nil
    pointer [*t] to the variable at [l], a map passed by value (a reference to
    the map object at [l]), or some other value of type [t], of which only the
    type matters to the code; at a pointer or map type that other value is
    the nil pointer or the nil map. *)
Inductive Iface :=
  | INil
  | IString (s : string)
  | IPtr (t : GoType) (l : loc)
  | IMap (l : loc)
  | IDirect (t : GoType).

Definition ValueOf (i : Iface) : reflect.Value :=
  match i with
  | INil => reflect.VInvalid
  | IString _ => reflect.VDirect TString
  | IPtr t l => reflect.VPtr t l
  | IMap l => reflect.VAddr TMap l
  | IDirect (TPtr t) => reflect.VNilPtr t
  | IDirect t => reflect.VDirect t
  end.

Definition Indirect (v : reflect.Value) : reflect.Value :=
  match v with
  | reflect.VPtr t l => reflect.VAddr t l
  | reflect.VNilPtr _ => reflect.VInvalid
  | _ => v
  end.

Definition Kind (v : reflect.Value) : reflect.Kind :=
  match v with
  | reflect.VInvalid => reflect.Invalid
  | reflect.VAddr t _ | reflect.VDirect t => reflect.kindOf t
  | reflect.VPtr _ _ | reflect.VNilPtr _ => reflect.Ptr
  end.

(** [v.Interface()] *)
Definition Interface (v : reflect.Value) : Iface :=
  match v with
  | reflect.VInvalid => INil
  | reflect.VAddr TMap l => IMap l
  | reflect.VAddr t _ | reflect.VDirect t => IDirect t
  | reflect.VPtr t l => IPtr t l
  | reflect.VNilPtr t => IDirect (TPtr t)
  end.

(** [v.Elem()] of a pointer *)
Definition Elem (v : reflect.Value) : reflect.Value := Indirect v.

(** The dynamic type printed by the [%T] verb; [None] for a nil interface. *)
Definition TypeOf (i : Iface) : option GoType :=
  match i with
  | INil => None
  | IString _ => Some TString
  | IPtr t _ => Some (TPtr t)
  | IMap _ => Some TMap
  | IDirect t => Some t
  end.

(** [v.MethodByName("BindName")], then [tn.Call(nil)[0].String()]: the table
    name the type declares, if the method is in the method set of [v].  A
    [StructDecl] describes a record type whose [BindName] method, if it has
    one, is [func() string]; a method of that name with parameters or without
    a result, on which the call panics, has no [StructDecl]. *)
Definition MethodByName_BindName (v : reflect.Value) : option string :=
  match v with
  | reflect.VPtr (TStruct d) _ =>
      match sd_BindName d with Some (_, n) => Some n | None => None end
  | reflect.VAddr (TStruct d) _ | reflect.VDirect (TStruct d) =>
      match sd_BindName d with Some (ByValue, n) => Some n | _ => None end
  | _ => None
  end.

(** ** Values, heap objects, errors *)

(** Driver-native column values and what variables hold.  [VMapRef l] is a map
    value: a reference to the map object at [l], so two copies of it are the
    same map.  [VStruct] is a struct value, copied when assigned. *)
#[warnings="-register-all"]
Inductive Value :=
  | VNil
  | VInt (z : Z)
  | VBool (b : bool)
  | VStr (s : string)
  | VBytes (b : string)
  | VMapRef (l : loc)
  | VStruct (fields : list Value).

Inductive Obj :=
  | OMap (m : gmap string Value)
  | OStruct (fields : list Value)
  | OSlice (elems : list Value).

(** Why [rows.Scan] refused a row. *)
Inductive ScanFault :=
  | ScanWithoutNext
  | ScanArgCount (want got : nat)
  | ScanConvert (column : nat).

Inductive Error :=
  | ErrNoRows
  | ErrBindValue
  | ErrExecuteSelect
  | ErrTable (given : option GoType)
  | ErrScan (f : ScanFault)
  | ErrDriver (code : nat).

Inductive PanicCause :=
  | SliceBounds (hi len : nat)
  | ReflectMisuse
  | HelperMisuse
  | NilDereference.

(** ** The session *)

Inductive BindShape :=
  | OBJECT_STRING
  | OBJECT_STRUCT
  | OBJECT_STRUCT_SLICE
  | OBJECT_MAP
  | OBJECT_MAP_SLICE.

Record Binder := mkBinder {
  BindOrigin      : Iface;
  BindType        : BindShape;
  BindName        : string;
  BindFields      : list string;
  BindResult      : reflect.Value;
  BindResultSlice : reflect.Value;
  BindLimit       : Z
}.

Definition Tx := nat.
Definition Stmt := nat.

Record Session := mkSession {
  binder        : Binder;
  tx            : option Tx;
  lastInsertId  : Z;
  sqlLogs       : list string;
  lastSql       : string;
  IfEnableQueryLog : bool
}.

(** Calls made to [database/sql], in the order they were made. *)
Inductive Conn := MasterDB | ViaTx (t : Tx).

Inductive Event :=
  | EvBegin
  | EvCommit (t : option Tx)
  | EvRollback (t : option Tx)
  | EvPrepare (c : Conn) (sql : string)
  | EvExec (st : Stmt) (args : list Value)
  | EvStmtClose (st : Stmt).

Record State := mkState {
  ses   : Session;
  heap  : gmap loc Obj;
  trace : list Event
}.

(** Field updates *)

Definition with_binder (f : Binder -> Binder) (st : State) : State :=
  let s := ses st in
  mkState (mkSession (f (binder s)) (tx s) (lastInsertId s) (sqlLogs s)
                     (lastSql s) (IfEnableQueryLog s))
          (heap st) (trace st).

Definition set_BindOrigin (v : Iface) (b : Binder) : Binder :=
  mkBinder v (BindType b) (BindName b) (BindFields b) (BindResult b)
           (BindResultSlice b) (BindLimit b).
Definition set_BindType (v : BindShape) (b : Binder) : Binder :=
  mkBinder (BindOrigin b) v (BindName b) (BindFields b) (BindResult b)
           (BindResultSlice b) (BindLimit b).
Definition set_BindName (v : string) (b : Binder) : Binder :=
  mkBinder (BindOrigin b) (BindType b) v (BindFields b) (BindResult b)
           (BindResultSlice b) (BindLimit b).
Definition set_BindFields (v : list string) (b : Binder) : Binder :=
  mkBinder (BindOrigin b) (BindType b) (BindName b) v (BindResult b)
           (BindResultSlice b) (BindLimit b).
Definition set_BindResult (v : reflect.Value) (b : Binder) : Binder :=
  mkBinder (BindOrigin b) (BindType b) (BindName b) (BindFields b) v
           (BindResultSlice b) (BindLimit b).
Definition set_BindResultSlice (v : reflect.Value) (b : Binder) : Binder :=
  mkBinder (BindOrigin b) (BindType b) (BindName b) (BindFields b)
           (BindResult b) v (BindLimit b).
Definition set_BindLimit (v : Z) (b : Binder) : Binder :=
  mkBinder (BindOrigin b) (BindType b) (BindName b) (BindFields b)
           (BindResult b) (BindResultSlice b) v.

Definition set_tx (v : option Tx) (st : State) : State :=
  let s := ses st in
  mkState (mkSession (binder s) v (lastInsertId s) (sqlLogs s) (lastSql s)
                     (IfEnableQueryLog s))
          (heap st) (trace st).
Definition set_lastInsertId (v : Z) (st : State) : State :=
  let s := ses st in
  mkState (mkSession (binder s) (tx s) v (sqlLogs s) (lastSql s)
                     (IfEnableQueryLog s))
          (heap st) (trace st).
Definition set_sqlLogs (v : list string) (st : State) : State :=
  let s := ses st in
  mkState (mkSession (binder s) (tx s) (lastInsertId s) v (lastSql s)
                     (IfEnableQueryLog s))
          (heap st) (trace st).
Definition set_lastSql (v : string) (st : State) : State :=
  let s := ses st in
  mkState (mkSession (binder s) (tx s) (lastInsertId s) (sqlLogs s) v
                     (IfEnableQueryLog s))
          (heap st) (trace st).
Definition set_heap (h : gmap loc Obj) (st : State) : State :=
  mkState (ses st) h (trace st).
Definition log_call (e : Event) (st : State) : State :=
  mkState (ses st) (heap st) (trace st ++ [e]).

(** ** A state monad with panics *)

Inductive Outcome (A : Type) :=
  | Ret (a : A) (st : State)
  | Panic (c : PanicCause) (st : State).
Arguments Ret {A} a st.
Arguments Panic {A} c st.

Definition M (A : Type) := State -> Outcome A.

Definition ret {A} (a : A) : M A := fun st => Ret a st.
Definition bind {A B} (m : M A) (k : A -> M B) : M B :=
  fun st => match m st with
            | Ret a st' => k a st'
            | Panic c st' => Panic c st'
            end.
Definition get : M State := fun st => Ret st st.
Definition modify (f : State -> State) : M unit := fun st => Ret tt (f st).
Definition panic {A} (c : PanicCause) : M A := fun st => Panic c st.

Declare Scope go_scope.
Delimit Scope go_scope with go.
Notation "x <- m ;; k" := (bind m (fun x => k))
  (at level 100, m at next level, right associativity) : go_scope.
Notation "m ;;; k" := (bind m (fun _ => k))
  (at level 100, right associativity) : go_scope.
Open Scope go_scope.

Definition getB : M Binder := fun st => Ret (binder (ses st)) st.
Definition setB (f : Binder -> Binder) : M unit := modify (with_binder f).

(** [reflect.MakeMap] and [reflect.New]: a new object at an unused location. *)
Definition alloc (o : Obj) : M loc :=
  fun st => let l := fresh (dom (heap st)) in
            Ret l (set_heap (<[l := o]> (heap st)) st).

(** ** Classification: [parseTable] and [parseFields] *)

(** *** The helpers outside [session.go] *)

(** Columns of the fields that are not ignored, in declaration order. *)
Definition columnsOf (d : StructDecl) : list string :=
  fd_column <$> filter (fun f => fd_ignore f = false) (sd_fields d).

(** Positions of the fields that are not ignored, in declaration order. *)
Fixpoint scanIndices (i : nat) (fs : list FieldDecl) : list nat :=
  match fs with
  | [] => []
  | f :: rest =>
      if fd_ignore f then scanIndices (S i) rest else i :: scanIndices (S i) rest
  end.

Module Model.
(** Modelled from the spec: [getTagName] is not in [session.go].  It reads the
    record's declared fields in declaration order, maps each to its column
    name by the field-naming convention and omits the fields marked ignore. *)
Definition getTagName (i : Iface) : list string :=
  match i with
  | IPtr (TStruct d) _ | IDirect (TStruct d) => columnsOf d
  | _ => []
  end.

(** Modelled from the spec: [strutForScan] is not in [session.go].  It gives
    the scan targets of a record: the storage of its fields that are not
    ignored, in declaration order.  A target is the record's location and the
    position of the field; [None] when the argument is not a reference to a
    record. *)
Definition strutForScan (u : Iface) : option (loc * list nat) :=
  match u with
  | IPtr (TStruct d) l => Some (l, scanIndices 0 (sd_fields d))
  | _ => None
  end.
End Model.

(** The code below is written against the two helpers, whatever they
    compute: [getTagName] gives the column names of a record, [strutForScan]
    the scan targets of a record as a location and field positions, or
    nothing if it does not return. *)
Section WithHelpers.
Variable getTagName : Iface -> list string.
Variable strutForScan : Iface -> option (loc * list nat).

Definition parseFields : M unit :=
  b <- getB ;;
  if Nat.eqb (length (BindFields b)) 0
  then setB (set_BindFields (getTagName (Interface (BindResult b))))
  else ret tt.

Definition typeName (t : GoType) : string :=
  match t with TStruct d => sd_name d | _ => "" end.

(** [v.Type()] of a valid non-pointer value, and [t.Elem()] of a slice type;
    the code calls them only where the kind has been checked, the other
    branches are never reached. *)
Definition valueType (v : reflect.Value) : GoType :=
  match v with
  | reflect.VAddr t _ | reflect.VDirect t => t
  | reflect.VPtr t _ | reflect.VNilPtr t => TPtr t
  | reflect.VInvalid => TBool
  end.

Definition typeElem (t : GoType) : GoType :=
  match t with
  | TSlice e | TPtr e => e
  | _ => TBool
  end.

Definition zeroStruct (t : GoType) : Obj :=
  match t with
  | TStruct d => OStruct (replicate (length (sd_fields d)) VNil)
  | _ => OStruct []
  end.

Definition parseTable : M (option Error) :=
  b <- getB ;;
  match BindOrigin b with
  | INil => ret None
  | IString name =>
      setB (set_BindType OBJECT_STRING) ;;;
      setB (set_BindName name) ;;;
      ret None
  | origin =>
      setB (set_BindFields []) ;;;
      let dstVal := ValueOf origin in
      let sliceVal := Indirect dstVal in
      r <- match Kind sliceVal with
           | reflect.Struct =>
               setB (set_BindType OBJECT_STRUCT) ;;;
               setB (set_BindResult sliceVal) ;;;
               setB (set_BindLimit 1%Z) ;;;
               let BindName :=
                 match MethodByName_BindName dstVal with
                 | Some n => n
                 | None => typeName (valueType sliceVal)
                 end in
               parseFields ;;;
               ret (inl BindName)
           | reflect.Map =>
               setB (set_BindType OBJECT_MAP) ;;;
               setB (set_BindLimit 1%Z) ;;;
               setB (set_BindResult sliceVal) ;;;
               ret (inl "")
           | reflect.Slice =>
               let eltType := typeElem (valueType sliceVal) in
               match reflect.kindOf eltType with
               | reflect.Map =>
                   setB (set_BindType OBJECT_MAP_SLICE) ;;;
                   l <- alloc (OMap ∅) ;;
                   setB (set_BindResult (reflect.VAddr eltType l)) ;;;
                   setB (set_BindResultSlice sliceVal) ;;;
                   ret (inl "")
               | reflect.Struct =>
                   setB (set_BindType OBJECT_STRUCT_SLICE) ;;;
                   l <- alloc (zeroStruct eltType) ;;
                   let new := reflect.VPtr eltType l in
                   setB (set_BindResult new) ;;;
                   setB (set_BindResultSlice sliceVal) ;;;
                   let BindName :=
                     match MethodByName_BindName new with
                     | Some n => n
                     | None => typeName eltType
                     end in
                   parseFields ;;;
                   ret (inl BindName)
               | _ => ret (inr (ErrTable (TypeOf origin)))
               end
           | _ => ret (inr (ErrTable (TypeOf origin)))
           end ;;
      match r with
      | inl BindName => setB (set_BindName BindName) ;;; ret None
      | inr e => ret (Some e)
      end
  end.

(** [Bind] stores the destination, classifies it and hands the session back;
    the Go method has the single result [ISession]. *)
Definition Bind (tab : Iface) : M unit :=
  setB (set_BindOrigin tab) ;;;
  _ <- parseTable ;;
  ret tt.

Definition Table (tab : Iface) : M unit := Bind tab.

(** The shape the switch of [parseTable] settles on, read off the destination
    alone; [None] where no shape is assigned. *)
Definition shapeOf (tab : Iface) : option BindShape :=
  match tab with
  | INil => None
  | IString _ => Some OBJECT_STRING
  | _ =>
      let sliceVal := Indirect (ValueOf tab) in
      match Kind sliceVal with
      | reflect.Struct => Some OBJECT_STRUCT
      | reflect.Map => Some OBJECT_MAP
      | reflect.Slice =>
          match reflect.kindOf (typeElem (valueType sliceVal)) with
          | reflect.Map => Some OBJECT_MAP_SLICE
          | reflect.Struct => Some OBJECT_STRUCT_SLICE
          | _ => None
          end
      | _ => None
      end
  end.

(** The record type behind a destination of shape Record or RecordList. *)
Definition recordDecl (tab : Iface) : option StructDecl :=
  match valueType (Indirect (ValueOf tab)) with
  | TStruct d | TSlice (TStruct d) => Some d
  | _ => None
  end.

(** A destination that is present but of no accepted shape. *)
Definition unrecognized (tab : Iface) : Prop :=
  tab <> INil /\ shapeOf tab = None.

(** ** The row cursor ([*sql.Rows])

    A cursor holds the rows still to come.  Each row says what the driver
    sent and, if [Scan] cannot place it, the first column that fails; the
    columns before it have been stored by then.  [rs_end] is the error, if
    any, that stops the iteration once the pending rows are used up. *)

Record RowItem := mkRow {
  cells   : list Value;
  bad_col : option nat
}.

Record Rows := mkRows {
  rs_columns : list string + Error;
  rs_pending : list RowItem;
  rs_end     : option Error;
  rs_current : option RowItem;
  rs_lasterr : option Error
}.

Definition Columns (r : Rows) : list string + Error := rs_columns r.

Definition Next (r : Rows) : bool * Rows :=
  match rs_pending r with
  | item :: rest =>
      (true, mkRows (rs_columns r) rest (rs_end r) (Some item) None)
  | [] =>
      (false, mkRows (rs_columns r) [] (rs_end r) None (rs_end r))
  end.

Definition Err (r : Rows) : option Error := rs_lasterr r.

(** [rows.Scan] with [n] destinations: the values stored in the leading
    destinations, and the error. *)
Definition Scan (r : Rows) (n : nat) : list Value * option Error :=
  match rs_current r with
  | None => ([], Some (ErrScan ScanWithoutNext))
  | Some item =>
      if decide (n = length (cells item)) then
        match bad_col item with
        | None => (cells item, None)
        | Some k => (take k (cells item), Some (ErrScan (ScanConvert k)))
        end
      else ([], Some (ErrScan (ScanArgCount (length (cells item)) n)))
  end.

(** ** Reflection on the heap *)

(** [m.SetMapIndex(reflect.ValueOf(key), reflect.ValueOf(val))] on the map
    itself.  For a nil [val], [reflect.ValueOf] gives the zero Value, and
    [SetMapIndex] with the zero Value deletes the key. *)
Definition mapStore (key : string) (val : Value) (m : gmap string Value)
  : gmap string Value :=
  match val with
  | VNil => delete key m
  | _ => <[key := val]> m
  end.

Definition SetMapIndex (v : reflect.Value) (key : string) (val : Value) : M unit :=
  fun st =>
    match v with
    | reflect.VAddr TMap l =>
        match heap st !! l with
        | Some (OMap m) =>
            Ret tt (set_heap (<[l := OMap (mapStore key val m)]> (heap st)) st)
        | _ => Panic ReflectMisuse st
        end
    | _ => Panic ReflectMisuse st
    end.

(** The value a [reflect.Value] stands for when it is copied into a slice:
    a map is copied as a reference, a struct by value. *)
Definition valueAt (v : reflect.Value) : M Value :=
  fun st =>
    match v with
    | reflect.VAddr TMap l => Ret (VMapRef l) st
    | reflect.VAddr (TStruct _) l =>
        match heap st !! l with
        | Some (OStruct fs) => Ret (VStruct fs) st
        | _ => Panic ReflectMisuse st
        end
    | _ => Panic ReflectMisuse st
    end.

(** [slice.Set(reflect.Append(slice, elem))] *)
Definition SetAppend (slice : reflect.Value) (elem : reflect.Value) : M unit :=
  x <- valueAt elem ;;
  fun st =>
    match slice with
    | reflect.VAddr (TSlice _) l =>
        match heap st !! l with
        | Some (OSlice xs) =>
            Ret tt (set_heap (<[l := OSlice (xs ++ [x])]> (heap st)) st)
        | _ => Panic ReflectMisuse st
        end
    | _ => Panic ReflectMisuse st
    end.

Fixpoint storeAt (idxs : list nat) (vals : list Value) (fs : list Value) : list Value :=
  match idxs, vals with
  | i :: idxs', v :: vals' => storeAt idxs' vals' (<[i := v]> fs)
  | _, _ => fs
  end.

(** What [Scan] does to the struct behind its targets. *)
Definition storeFields (l : loc) (idxs : list nat) (vals : list Value) : M unit :=
  fun st =>
    match heap st !! l with
    | Some (OStruct fs) =>
        Ret tt (set_heap (<[l := OStruct (storeAt idxs vals fs)]> (heap st)) st)
    | _ => Panic ReflectMisuse st
    end.

(** ** Materialisation *)

Definition decode (val : Value) : Value :=
  match val with
  | VBytes b => VStr b
  | _ => val
  end.

Fixpoint setColumns (m : reflect.Value) (columns : list string) (values : list Value)
  : M unit :=
  match columns, values with
  | col :: columns', val :: values' =>
      SetMapIndex m col (decode val) ;;;
      setColumns m columns' values'
  | _, _ => ret tt
  end.

(** The loop of [scanMapAll]; [pending] is what the cursor still holds, so the
    first case is [rows.Next()] answering false. *)
Fixpoint scanMapAll_loop (pending : list RowItem) (rows : Rows)
    (columns : list string) (values : list Value) : M (option Error * Rows) :=
  match pending with
  | [] => ret (None, snd (Next rows))
  | _ :: rest =>
      let rows := snd (Next rows) in
      let count := length columns in
      let '(stored, _) := Scan rows count in
      let values := (stored ++ drop (length stored) values)%list in
      b <- getB ;;
      setColumns (BindResult b) columns values ;;;
      match BindType b with
      | OBJECT_MAP_SLICE => SetAppend (BindResultSlice b) (BindResult b)
      | _ => ret tt
      end ;;;
      scanMapAll_loop rest rows columns values
  end.

Definition scanMapAll (rows : Rows) (dst : reflect.Value) : M (option Error * Rows) :=
  match Columns rows with
  | inr err => ret (Some err, rows)
  | inl columns =>
      let count := length columns in
      let values := replicate count VNil in
      scanMapAll_loop (rs_pending rows) rows columns values
  end.

Definition scanMap (rows : Rows) (dst : reflect.Value) : M (option Error * Rows) :=
  scanMapAll rows dst.

Definition scanTargets (u : Iface) : M (loc * list nat) :=
  match strutForScan u with
  | Some t => ret t
  | None => panic HelperMisuse
  end.

Definition scanRow (rows : Rows) (dst : Iface) : M (option Error * Rows) :=
  let '(more, rows) := Next rows in
  if negb more then
    match Err rows with
    | Some err => ret (Some err, rows)
    | None => ret (Some ErrNoRows, rows)
    end
  else
    fields <- scanTargets dst ;;
    let '(stored, err) := Scan rows (length (snd fields)) in
    storeFields (fst fields) (snd fields) stored ;;;
    match err with
    | Some err => ret (Some err, rows)
    | None => ret (Err rows, rows)
    end.

Fixpoint scanAll_loop (pending : list RowItem) (rows : Rows)
  : M (option Error * Rows) :=
  match pending with
  | [] => let rows := snd (Next rows) in ret (Err rows, rows)
  | _ :: rest =>
      let rows := snd (Next rows) in
      b <- getB ;;
      fields <- scanTargets (Interface (BindResult b)) ;;
      let '(stored, err) := Scan rows (length (snd fields)) in
      storeFields (fst fields) (snd fields) stored ;;;
      match err with
      | Some err => ret (Some err, rows)
      | None =>
          SetAppend (BindResultSlice b) (Elem (BindResult b)) ;;;
          scanAll_loop rest rows
      end
  end.

Definition scanAll (rows : Rows) (dst : reflect.Value) : M (option Error * Rows) :=
  scanAll_loop (rs_pending rows) rows.

Definition scan (rows : Rows) : M (option Error * Rows) :=
  b <- getB ;;
  match BindType b with
  | OBJECT_STRUCT => scanRow rows (BindOrigin b)
  | OBJECT_STRUCT_SLICE => scanAll rows (BindResultSlice b)
  | OBJECT_MAP => scanMap rows (BindResult b)
  | OBJECT_MAP_SLICE => scanMapAll rows (BindResultSlice b)
  | _ => ret (Some ErrBindValue, rows)
  end.
End WithHelpers.

(** ** The database side

    [database/sql] is outside this file.  Its answers are given by a [Driver]:
    each answer may depend on the arguments of the call and on every call made
    so far.  A call made on a connection, statement or handle that exists
    returns. *)

Record Result := mkResult {
  res_LastInsertId : Z * option Error;
  res_RowsAffected : Z * option Error
}.

Record Driver := mkDriver {
  Sprintf     : string -> list Value -> string;
  db_Begin    : list Event -> Tx + Error;
  tx_Commit   : list Event -> option Tx -> option Error;
  tx_Rollback : list Event -> option Tx -> option Error;
  db_Prepare  : list Event -> Conn -> string -> Stmt + Error;
  stmt_Exec   : list Event -> Stmt -> list Value -> Result + Error
}.

(** [strings.ToLower], on the bytes of the text: the code compares its result
    with keywords made of ASCII letters only. *)
Definition lowerByte (c : ascii) : ascii :=
  let n := nat_of_ascii c in
  if (65 <=? n)%nat && (n <=? 90)%nat then ascii_of_nat (n + 32) else c.

Fixpoint ToLower (s : string) : string :=
  match s with
  | EmptyString => EmptyString
  | String c rest => String (lowerByte c) (ToLower rest)
  end.

(** [s[lo:hi]] panics when [hi] is past the end of [s]. *)
Definition slice (s : string) (lo hi : nat) : M string :=
  if (hi <=? String.length s)%nat
  then ret (substring lo (hi - lo) s)
  else panic (SliceBounds hi (String.length s)).

Section WithDriver.
Variable drv : Driver.

Definition Begin : M (option Error) :=
  fun st =>
    let st' := log_call EvBegin st in
    match db_Begin drv (trace st) with
    | inl t => Ret None (set_tx (Some t) st')
    | inr err => Ret (Some err) (set_tx None st')
    end.

(** [s.tx.Rollback()] and [s.tx.Commit()] read through the handle: on a
    session that holds none they dereference a nil [*sql.Tx] and panic, before
    any call reaches the database and before [s.tx] is assigned. *)
Definition Rollback : M (option Error) :=
  fun st =>
    match tx (ses st) with
    | None => Panic NilDereference st
    | Some t =>
        let err := tx_Rollback drv (trace st) (Some t) in
        Ret err (set_tx None (log_call (EvRollback (Some t)) st))
    end.

Definition Commit : M (option Error) :=
  fun st =>
    match tx (ses st) with
    | None => Panic NilDereference st
    | Some t =>
        let err := tx_Commit drv (trace st) (Some t) in
        Ret err (set_tx None (log_call (EvCommit (Some t)) st))
    end.

(** A step of a transaction: a Go closure [func(ses ISession) error].  It is
    handed the session, here the state it runs in. *)
Definition Closer := M (option Error).

Fixpoint Transaction_loop (closers : list Closer) : M (option Error) :=
  match closers with
  | [] => Commit
  | closer :: rest =>
      err <- closer ;;
      match err with
      | Some e => _ <- Rollback ;; ret (Some e)
      | None => Transaction_loop rest
      end
  end.

Definition Transaction (closers : list Closer) : M (option Error) :=
  err <- Begin ;;
  match err with
  | Some e => ret (Some e)
  | None => Transaction_loop closers
  end.

Definition Prepare (c : Conn) (sqlstring : string) : M (Stmt + Error) :=
  fun st =>
    Ret (db_Prepare drv (trace st) c sqlstring)
        (log_call (EvPrepare c sqlstring) st).

Definition Exec (stmt : Stmt) (args : list Value) : M (Result + Error) :=
  fun st =>
    Ret (stmt_Exec drv (trace st) stmt args) (log_call (EvExec stmt args) st).

Definition Close (stmt : Stmt) : M unit := modify (log_call (EvStmtClose stmt)).

Definition recordSql (sqlstring : string) (args : list Value) : M unit :=
  modify (set_lastSql (Sprintf drv sqlstring args)) ;;;
  st <- get ;;
  if IfEnableQueryLog (ses st)
  then modify (set_sqlLogs (sqlLogs (ses st) ++ [lastSql (ses st)]))
  else ret tt.

Definition Execute (sqlstring : string) (args : list Value)
  : M (Z * option Error) :=
  recordSql sqlstring args ;;;
  head <- slice sqlstring 0 6 ;;
  let operType := ToLower head in
  if String.eqb operType "select" then ret (0%Z, Some ErrExecuteSelect) else
  st <- get ;;
  prepared <- match tx (ses st) with
              | None => Prepare MasterDB sqlstring
              | Some t => Prepare (ViaTx t) sqlstring
              end ;;
  match prepared with
  | inr err => ret (0%Z, Some err)
  | inl stmt =>
      executed <- Exec stmt args ;;
      match executed with
      | inr errs => Close stmt ;;; ret (0%Z, Some errs)
      | inl result =>
          (if String.eqb operType "insert" then
             match res_LastInsertId result with
             | (id, None) => modify (set_lastInsertId id)
             | (_, Some _) => ret tt
             end
           else ret tt) ;;;
          Close stmt ;;;
          ret (res_RowsAffected result)
      end
  end.

Definition LastInsertId : M Z := fun st => Ret (lastInsertId (ses st)) st.
Definition LastInsertSql : M string := fun st => Ret (lastSql (ses st)) st.
End WithDriver.

(** ** Letter case of a keyword *)

(** [c] is the lower-case letter [k] or its upper-case form. *)
Definition letterOf (k c : ascii) : bool :=
  Ascii.eqb c k || Nat.eqb (nat_of_ascii c + 32) (nat_of_ascii k).

(** [s] spells the lower-case keyword [kw], each letter in either case. *)
Fixpoint anyCaseOf (kw s : string) : bool :=
  match kw, s with
  | EmptyString, EmptyString => true
  | String k kw', String c s' => letterOf k c && anyCaseOf kw' s'
  | _, _ => false
  end.

Definition isLower (k : ascii) : bool :=
  (97 <=? nat_of_ascii k)%nat && (nat_of_ascii k <=? 122)%nat.

(** ** Reading results back *)

(** The entries one row writes into a map: column by column, later columns
    over earlier ones of the same name; a nil value removes the entry. *)
Fixpoint putColumns (columns : list string) (values : list Value)
    (m : gmap string Value) : gmap string Value :=
  match columns, values with
  | col :: columns', val :: values' =>
      putColumns columns' values' (mapStore col (decode val) m)
  | _, _ => m
  end.

(** What a column holds once a value was written under it: nothing for a
    nil value (SQL NULL), the decoded value otherwise. *)
Definition entryOf (val : Value) : option Value :=
  match val with
  | VNil => None
  | _ => Some (decode val)
  end.

(** The map that element [i] of the slice at [l] refers to. *)
Definition mapOfElem (st : State) (l : loc) (i : nat) : option (gmap string Value) :=
  match heap st !! l with
  | Some (OSlice xs) =>
      match xs !! i with
      | Some (VMapRef r) =>
          match heap st !! r with
          | Some (OMap m) => Some m
          | _ => None
          end
      | _ => None
      end
  | _ => None
  end.

(** [elem[key] = val] on element [i] of the slice at [l], as a caller would
    write it after the call. *)
Definition assignElem (l : loc) (i : nat) (key : string) (val : Value) : M unit :=
  fun st =>
    match heap st !! l with
    | Some (OSlice xs) =>
        match xs !! i with
        | Some (VMapRef r) => SetMapIndex (reflect.VAddr TMap r) key val st
        | _ => Panic ReflectMisuse st
        end
    | _ => Panic ReflectMisuse st
    end.

(** ** Runs of transaction steps *)

(** [succeed closers st st']: called one after the other from [st], each on
    the state the one before left, the closers all return no error and leave
    [st']. *)
Inductive succeed : list Closer -> State -> State -> Prop :=
  | succeed_nil (st : State) : succeed [] st st
  | succeed_cons (closer : Closer) (rest : list Closer) (st st1 st2 : State) :
      closer st = Ret None st1 ->
      succeed rest st1 st2 ->
      succeed (closer :: rest) st st2.

(** ** Sample data *)

Module Sample.
Definition User : StructDecl :=
  mkStruct "User"
    [ mkField "Id" "id" false;
      mkField "Secret" "-" true;
      mkField "Name" "name" false ]
    None.

Definition emptyBinder : Binder :=
  mkBinder INil OBJECT_STRING "" [] reflect.VInvalid reflect.VInvalid 0%Z.

Definition session0 : Session :=
  mkSession emptyBinder None 0%Z [] "" true.

(** The caller owns a [User] variable at 0, a map at 1, a slice of maps at 2
    and a slice of [User] at 3. *)
Definition heap0 : gmap loc Obj :=
  <[0 := OStruct [VNil; VNil; VNil]]>
  (<[1 := OMap ∅]>
  (<[2 := OSlice []]>
  (<[3 := OSlice []]> ∅))).

Definition st0 : State := mkState session0 heap0 [].

Definition run {A} (m : M A) (st : State) : State :=
  match m st with Ret _ st' | Panic _ st' => st' end.

(** A database that accepts everything: statement 7, generated identifier
    42, one row affected. *)
Definition driver : Driver :=
  mkDriver (fun text _ => text)
           (fun _ => inl 1)
           (fun _ _ => None)
           (fun _ _ => None)
           (fun _ _ _ => inl 7)
           (fun _ _ _ => inl (mkResult (42%Z, None) (1%Z, None))).

(** Transaction steps: one that notes its name in the statement log and
    succeeds, one that fails. *)
Definition note (name : string) : Closer :=
  fun st => Ret None (set_sqlLogs (sqlLogs (ses st) ++ [name]) st).
Definition failing (e : Error) : Closer := ret (Some e).

(** Cursors over the columns id, name. *)
Definition cursor (items : list RowItem) : Rows :=
  mkRows (inl ["id"; "name"]) items None None None.

Definition ann : RowItem := mkRow [VInt 1; VBytes "ann"] None.
Definition bob : RowItem := mkRow [VInt 2; VBytes "bob"] None.
(** A row whose first column cannot be scanned. *)
Definition broken : RowItem := mkRow [VStr "x"; VBytes "eve"] (Some 0).

(** The session after [Bind(&users)], [Bind(&maps)], [Bind(&user)]. *)
Definition boundUsers : State :=
  run (Bind Model.getTagName (IPtr (TSlice (TStruct User)) 3)) st0.
Definition boundMaps : State :=
  run (Bind Model.getTagName (IPtr (TSlice TMap) 2)) st0.
Definition boundUser : State :=
  run (Bind Model.getTagName (IPtr (TStruct User) 0)) st0.
End Sample.

(** ** Reads: [Query]

    The read connection is a second collaborator.  Its calls are kept in a
    log of their own, in the order they were made; its answers may depend on
    that log and on the calls made on the write side. *)

Inductive ReadCall :=
  | RcPrepare (sql : string)
  | RcQuery (st : Stmt) (args : list Value)
  | RcRowsClose
  | RcStmtClose (st : Stmt).

Record Replica := mkReplica {
  slave_Prepare : list Event -> list ReadCall -> string -> Stmt + Error;
  stmt_Query    : list Event -> list ReadCall -> Stmt -> list Value -> Rows + Error
}.

Section WithReplica.
Variable drv : Driver.
Variable rep : Replica.
Variable strutForScan : Iface -> option (loc * list nat).

(** The deferred [rows.Close()] and [stmt.Close()] run when [Query] leaves,
    whether [scan] returned or panicked: the cursor first, then the
    statement. *)
Definition Query (sqlstring : string) (args : list Value)
    (st : State) (log : list ReadCall)
  : Outcome (option Error) * list ReadCall :=
  match recordSql drv sqlstring args st with
  | Panic c st1 => (Panic c st1, log)
  | Ret _ st1 =>
      let log1 := log ++ [RcPrepare sqlstring] in
      match slave_Prepare rep (trace st1) log sqlstring with
      | inr err => (Ret (Some err) st1, log1)
      | inl stmt =>
          let log2 := log1 ++ [RcQuery stmt args] in
          match stmt_Query rep (trace st1) log1 stmt args with
          | inr err => (Ret (Some err) st1, log2 ++ [RcStmtClose stmt])
          | inl rows =>
              let closed := log2 ++ [RcRowsClose; RcStmtClose stmt] in
              match scan strutForScan rows st1 with
              | Ret (err, _) st2 => (Ret err st2, closed)
              | Panic c st2 => (Panic c st2, closed)
              end
          end
      end
  end.
End WithReplica.

(** ** What a run of rows leaves behind *)

(** A row [Scan] accepts whole into [n] destinations. *)
Definition goodRow (n : nat) (item : RowItem) : Prop :=
  bad_col item = None /\ length (cells item) = n.

(** The map after the rows were written into it one after the other. *)
Definition mapAfter (columns : list string) (items : list RowItem)
    (m : gmap string Value) : gmap string Value :=
  foldl (fun m item => putColumns columns (cells item) m) m items.

(** The record values appended for the rows: each is the template as it
    stands once that row was stored into it. *)
Fixpoint recordsOf (targets : list nat) (items : list RowItem)
    (fs : list Value) : list Value :=
  match items with
  | [] => []
  | item :: rest =>
      let fs' := storeAt targets (cells item) fs in
      VStruct fs' :: recordsOf targets rest fs'
  end.

(** The template once all the rows were stored into it. *)
Definition templateAfter (targets : list nat) (items : list RowItem)
    (fs : list Value) : list Value :=
  foldl (fun fs item => storeAt targets (cells item) fs) fs items.

(** A transaction step that runs one write and returns its error:
    [func(ses ISession) error { _, err := ses.Execute(sql, args...); return err }]. *)
Definition executeStep (drv : Driver) (sqlstring : string) (args : list Value)
  : Closer :=
  r <- Execute drv sqlstring args ;;
  ret (snd r).

(** The state a call leaves, whether it returned or panicked. *)
Definition finalState {A} (o : Outcome A) : State :=
  match o with Ret _ st | Panic _ st => st end.

(** The cursor once [Next] has answered false: nothing pending, and the error
    that ended the iteration, if any, waiting in [Err]. *)
Definition drained (rows : Rows) : Rows :=
  mkRows (rs_columns rows) [] (rs_end rows) None (rs_end rows).

(** The connection [Execute] prepares on. *)
Definition writeConn (st : State) : Conn :=
  match tx (ses st) with
  | Some t => ViaTx t
  | None => MasterDB
  end.

(** [st'] differs from [st] in the heap at most. *)
Definition sameSession (st st' : State) : Prop :=
  ses st' = ses st /\ trace st' = trace st.

(** A computation that, returning or panicking, changes the heap at most. *)
Definition framed {A} (m : M A) : Prop :=
  forall st, sameSession st (finalState (m st)).

(** The session is bound to the map at [r] under one of the two mapping
    shapes; under [OBJECT_MAP_SLICE] the slice to fill is another object. *)
Definition mapBound (r : loc) (st : State) : Prop :=
  BindResult (binder (ses st)) = reflect.VAddr TMap r /\
  (exists m, heap st !! r = Some (OMap m)) /\
  (BindType (binder (ses st)) = OBJECT_MAP \/
   BindType (binder (ses st)) = OBJECT_MAP_SLICE /\
   exists elt ls xs,
     BindResultSlice (binder (ses st)) = reflect.VAddr (TSlice elt) ls /\
     r <> ls /\ heap st !! ls = Some (OSlice xs)).

(** The session is bound to a slice of records: the template made at bind
    time is at [r], the helper gives [targets] inside it, and the slice to
    fill is another object, at [ls]. *)
Definition recordsBound (strutForScan : Iface -> option (loc * list nat))
    (r ls : loc) (targets : list nat) (st : State) : Prop :=
  BindType (binder (ses st)) = OBJECT_STRUCT_SLICE /\
  r <> ls /\
  exists d elt,
    BindResult (binder (ses st)) = reflect.VPtr (TStruct d) r /\
    strutForScan (IPtr (TStruct d) r) = Some (r, targets) /\
    BindResultSlice (binder (ses st)) = reflect.VAddr (TSlice elt) ls.

(** The state once the statement text was recorded: the first step of both
    [Execute] and [Query]. *)
Definition recorded (drv : Driver) (sqlstring : string) (args : list Value)
    (st : State) : State :=
  finalState (recordSql drv sqlstring args st).

(** The keyword [Execute] and its callers look at. *)
Definition operTypeOf (sqlstring : string) : string :=
  ToLower (substring 0 6 sqlstring).

Module Demo.
(** A type whose table name comes from a [BindName] method on the pointer. *)
Definition Account : StructDecl :=
  mkStruct "Account"
    [ mkField "Id" "id" false; mkField "Owner" "owner" false ]
    (Some (ByPointer, "accounts")).

(** A read connection that answers every statement with the same two rows. *)
Definition replica : Replica :=
  mkReplica (fun _ _ _ => inl 3)
            (fun _ _ _ _ => inl (Sample.cursor [Sample.ann; Sample.bob])).

(** A read connection on which nothing can be prepared. *)
Definition deadReplica : Replica :=
  mkReplica (fun _ _ _ => inr (ErrDriver 9))
            (fun _ _ _ _ => inr (ErrDriver 9)).

(** The session after [Bind(&m)] with [m] the caller's map at 1. *)
Definition boundMap : State :=
  Sample.run (Bind Model.getTagName (IPtr TMap 1)) Sample.st0.

(** A row whose name is NULL. *)
Definition nameless : RowItem := mkRow [VInt 3; VNil] None.

(** A write connection on which the generated identifier cannot be read. *)
Definition driverNoId : Driver :=
  mkDriver (fun text _ => text)
           (fun _ => inl 5)
           (fun _ _ => None)
           (fun _ _ => None)
           (fun _ _ _ => inl 7)
           (fun _ _ _ => inl (mkResult (0%Z, Some (ErrDriver 3)) (1%Z, None))).

(** A cursor of two rows that a lost connection ends. *)
Definition cutCursor : Rows :=
  mkRows (inl ["id"; "name"]) [Sample.ann; Sample.bob] (Some (ErrDriver 4))
         None None.

(** A write connection whose transaction is number 5 and whose inserts
    generate identifier 42, with the count of affected rows unavailable. *)
Definition driverNoCount : Driver :=
  mkDriver (fun text _ => text)
           (fun _ => inl 5)
           (fun _ _ => None)
           (fun _ _ => None)
           (fun _ _ _ => inl 7)
           (fun _ _ _ => inl (mkResult (42%Z, None) (0%Z, Some (ErrDriver 2)))).

(** The session after an insert that generated identifier 42. *)
Definition inserted : State :=
  Sample.run (Execute Sample.driver "INSERT INTO users(name) VALUES(?)"
                [VStr "ann"]) Sample.st0.
End Demo.

(** * Properties *)

(** ** Classification *)

Ltac by_kind tab H :=
  destruct tab as [ | ? | [ | | | | | ? | | [ | | | | | ? | | ? | ? ] | ? ] ?
                  | ? | [ | | | | | ? | | [ | | | | | ? | | ? | ? ] | ? ] ];
  cbn in H; try discriminate H.

(** C1, as the code has it: for a destination classified Record or RecordList
    the field list is cleared and then set to what [getTagName] derives from
    the record template, whatever the caller had put there before. *)
Theorem parseTable_rederives_fields
    (getTagName : Iface -> list string) (st : State) :
  let tab := BindOrigin (binder (ses st)) in
  shapeOf tab = Some OBJECT_STRUCT \/ shapeOf tab = Some OBJECT_STRUCT_SLICE ->
  exists d template st',
    recordDecl tab = Some d /\
    (template = IDirect (TStruct d) \/ exists l, template = IPtr (TStruct d) l) /\
    parseTable getTagName st = Ret None st' /\
    Interface (BindResult (binder (ses st'))) = template /\
    BindFields (binder (ses st')) = getTagName template.
Proof.
  destruct st as [[[tab shape name fields res resSlice lim] t id logs sql q] h tr].
  cbn. intros [H | H]; by_kind tab H;
    eexists; eexists; eexists;
    (split; [reflexivity | ]);
    (split; [ | split; [reflexivity | split; reflexivity]]);
    cbn; eauto.
Qed.

Lemma parseTable_rederives_fields_witness :
  exists d template st',
    recordDecl (IPtr (TStruct Sample.User) 0) = Some d /\
    (template = IDirect (TStruct d) \/ exists l, template = IPtr (TStruct d) l) /\
    parseTable Model.getTagName
      (with_binder (set_BindFields ["nickname"])
         (with_binder (set_BindOrigin (IPtr (TStruct Sample.User) 0)) Sample.st0))
      = Ret None st' /\
    Interface (BindResult (binder (ses st'))) = template /\
    BindFields (binder (ses st')) = Model.getTagName template.
Proof.
  apply (parseTable_rederives_fields Model.getTagName
           (with_binder (set_BindFields ["nickname"])
              (with_binder (set_BindOrigin (IPtr (TStruct Sample.User) 0))
                 Sample.st0))).
  left. reflexivity.
Defined.

(** With the helper as the specification describes it, the list is the
    columns of the fields that are not ignored, in declaration order. *)
Lemma parseTable_fields_in_declaration_order (st : State) :
  let tab := BindOrigin (binder (ses st)) in
  shapeOf tab = Some OBJECT_STRUCT \/ shapeOf tab = Some OBJECT_STRUCT_SLICE ->
  exists d st',
    recordDecl tab = Some d /\
    parseTable Model.getTagName st = Ret None st' /\
    BindFields (binder (ses st')) = columnsOf d.
Proof.
  destruct st as [[[tab shape name fields res resSlice lim] t id logs sql q] h tr].
  cbn. intros [H | H]; by_kind tab H;
    eexists; eexists; (split; [reflexivity | split; reflexivity]).
Qed.

(** C1, counterexample: a caller puts ["nickname"] in the field list and binds
    a [*User]; after classification the list is ["id"; "name"]. *)
Lemma parseTable_overwrites_preset_fields :
  let st := with_binder (set_BindFields ["nickname"])
              (with_binder (set_BindOrigin (IPtr (TStruct Sample.User) 0))
                 Sample.st0) in
  shapeOf (BindOrigin (binder (ses st))) = Some OBJECT_STRUCT /\
  BindFields (binder (ses st)) = ["nickname"] /\
  exists st',
    parseTable Model.getTagName st = Ret None st' /\
    BindFields (binder (ses st')) = ["id"; "name"] /\
    BindFields (binder (ses st')) <> BindFields (binder (ses st)).
Proof.
  cbn. split; [reflexivity | split; [reflexivity | ]].
  eexists. split; [reflexivity | ]. cbn. split; [reflexivity | discriminate].
Qed.

(** ** Unrecognised destinations *)

(** C4, as the code has it: for a destination of no accepted shape,
    [parseTable] reports the classification error, and [Bind] drops it and
    returns normally.  The session keeps the destination and an emptied field
    list; shape, table name, template and limit are those of the bind before. *)
Theorem Bind_unrecognized_drops_error
    (getTagName : Iface -> list string) (tab : Iface) (st : State) :
  unrecognized tab ->
  let st' := with_binder (set_BindFields []) (with_binder (set_BindOrigin tab) st) in
  parseTable getTagName (with_binder (set_BindOrigin tab) st)
    = Ret (Some (ErrTable (TypeOf tab))) st' /\
  Bind getTagName tab st = Ret tt st' /\
  BindType (binder (ses st')) = BindType (binder (ses st)) /\
  BindName (binder (ses st')) = BindName (binder (ses st)).
Proof.
  intros [Hnil H].
  destruct st as [[[tab0 shape name fields res resSlice lim] t id logs sql q] h tr].
  by_kind tab H; try congruence; cbn; repeat split; reflexivity.
Qed.

Lemma Bind_unrecognized_drops_error_witness :
  let st' := with_binder (set_BindFields [])
               (with_binder (set_BindOrigin (IDirect TInt)) Sample.st0) in
  parseTable Model.getTagName (with_binder (set_BindOrigin (IDirect TInt)) Sample.st0)
    = Ret (Some (ErrTable (Some TInt))) st' /\
  Bind Model.getTagName (IDirect TInt) Sample.st0 = Ret tt st' /\
  BindType (binder (ses st')) = BindType (binder (ses Sample.st0)) /\
  BindName (binder (ses st')) = BindName (binder (ses Sample.st0)).
Proof.
  apply (Bind_unrecognized_drops_error Model.getTagName (IDirect TInt) Sample.st0).
  split; [discriminate | reflexivity].
Defined.

(** C4, counterexample: a session bound to a [*User] is then bound to an
    [int].  Classification reports an error, yet [Bind] returns normally with
    nothing for the caller to see, and the [int] is left paired with the
    Record shape of the earlier bind. *)
Lemma Bind_int_returns_normally :
  let st := Sample.boundUser in
  unrecognized (IDirect TInt) /\
  (exists st1, parseTable Model.getTagName
                 (with_binder (set_BindOrigin (IDirect TInt)) st)
               = Ret (Some (ErrTable (Some TInt))) st1) /\
  exists st', Bind Model.getTagName (IDirect TInt) st = Ret tt st' /\
              BindOrigin (binder (ses st')) = IDirect TInt /\
              BindType (binder (ses st')) = OBJECT_STRUCT.
Proof.
  cbn. split; [split; [discriminate | reflexivity] | ].
  split; eexists; [reflexivity | ].
  split; [reflexivity | split; reflexivity].
Qed.

(** ** The table name under a Mapping bind *)

(** C5, as the code has it: a bind that classifies as Mapping sets the
    resolved table name to the empty string, whatever it was. *)
Theorem Bind_mapping_resets_table_name
    (getTagName : Iface -> list string) (tab : Iface) (st : State) :
  shapeOf tab = Some OBJECT_MAP ->
  exists st',
    Bind getTagName tab st = Ret tt st' /\
    BindType (binder (ses st')) = OBJECT_MAP /\
    BindName (binder (ses st')) = "".
Proof.
  intros H.
  destruct st as [[[tab0 shape name fields res resSlice lim] t id logs sql q] h tr].
  by_kind tab H; eexists; (split; [reflexivity | split; reflexivity]).
Qed.

Lemma Bind_mapping_resets_table_name_witness :
  exists st',
    Bind Model.getTagName (IPtr TMap 1) Sample.st0 = Ret tt st' /\
    BindType (binder (ses st')) = OBJECT_MAP /\
    BindName (binder (ses st')) = "".
Proof.
  apply (Bind_mapping_resets_table_name Model.getTagName (IPtr TMap 1) Sample.st0).
  reflexivity.
Defined.

(** C5, counterexample: after [Bind("users")] the table name is "users"; a
    following [Bind(&m)] with [m] a map leaves it empty. *)
Lemma Bind_mapping_loses_prior_table_name :
  let st := Sample.run (Bind Model.getTagName (IString "users")) Sample.st0 in
  BindType (binder (ses st)) = OBJECT_STRING /\
  BindName (binder (ses st)) = "users" /\
  shapeOf (IPtr TMap 1) = Some OBJECT_MAP /\
  exists st',
    Bind Model.getTagName (IPtr TMap 1) st = Ret tt st' /\
    BindName (binder (ses st')) = "" /\
    BindName (binder (ses st')) <> BindName (binder (ses st)).
Proof.
  cbn. repeat (split; [reflexivity | ]).
  eexists. split; [reflexivity | ]. cbn. split; [reflexivity | discriminate].
Qed.

(** ** Writes *)

Lemma lowerByte_letterOf (k c : ascii) :
  isLower k = true -> letterOf k c = true -> lowerByte c = k.
Proof.
  unfold isLower, letterOf, lowerByte. intros Hk Hc.
  apply andb_true_iff in Hk as [Hlo Hhi].
  apply Nat.leb_le in Hlo. apply Nat.leb_le in Hhi.
  apply orb_true_iff in Hc as [Heq | Hup].
  - apply Ascii.eqb_eq in Heq. subst c.
    replace (nat_of_ascii k <=? 90)%nat with false
      by (symmetry; apply Nat.leb_gt; lia).
    now rewrite andb_false_r.
  - apply Nat.eqb_eq in Hup.
    replace (65 <=? nat_of_ascii c)%nat with true
      by (symmetry; apply Nat.leb_le; lia).
    replace (nat_of_ascii c <=? 90)%nat with true
      by (symmetry; apply Nat.leb_le; lia).
    cbn [andb]. rewrite Hup. apply ascii_nat_embedding.
Qed.

Lemma ToLower_select (head rest : string) :
  anyCaseOf "select" head = true ->
  (6 <=? String.length (head +:+ rest))%nat = true /\
  ToLower (substring 0 6 (head +:+ rest)) = "select".
Proof.
  intros H.
  do 6 (destruct head as [ | ? head];
        [cbn [anyCaseOf] in H; rewrite ?andb_false_r in H; discriminate H | ]).
  destruct head;
    [ | cbn [anyCaseOf] in H; rewrite !andb_false_r in H; discriminate H].
  cbn [anyCaseOf] in H.
  repeat (apply andb_true_iff in H as [? H]).
  split; [reflexivity | ].
  simpl.
  repeat match goal with
         | Hc : letterOf ?k ?c = true |- _ =>
             rewrite (lowerByte_letterOf k c eq_refl Hc); clear Hc
         end.
  destruct rest; reflexivity.
Qed.

Ltac run_Execute :=
  unfold Execute, recordSql, slice, bind, modify, get, ret, panic.

(** C6: on a statement text of fewer than six bytes [Execute] panics at
    [sqlstring[0:6]]; it returns neither a count nor an error, and no call has
    reached the database. *)
Theorem Execute_short_text_panics
    (drv : Driver) (sqlstring : string) (args : list Value) (st : State) :
  (String.length sqlstring < 6)%nat ->
  exists st',
    Execute drv sqlstring args st
      = Panic (SliceBounds 6 (String.length sqlstring)) st' /\
    trace st' = trace st.
Proof.
  intros Hlen. run_Execute.
  assert (Hle : (6 <=? String.length sqlstring)%nat = false)
    by (apply Nat.leb_gt; exact Hlen).
  rewrite Hle. cbn.
  destruct (IfEnableQueryLog (ses st)); eexists; split; reflexivity.
Qed.

(** C7: a statement text whose first six bytes spell "select", each letter in
    either case, is refused with the usage error and a count of zero; the
    history of database calls and the transaction handle are as before. *)
Theorem Execute_rejects_select
    (drv : Driver) (head rest : string) (args : list Value) (st : State) :
  anyCaseOf "select" head = true ->
  exists st',
    Execute drv (head +:+ rest) args st = Ret (0%Z, Some ErrExecuteSelect) st' /\
    trace st' = trace st /\
    tx (ses st') = tx (ses st) /\
    lastInsertId (ses st') = lastInsertId (ses st).
Proof.
  intros H. destruct (ToLower_select head rest H) as [Hlen Hlow].
  run_Execute.
  rewrite Hlen. cbn -[ToLower substring String.eqb]. rewrite Hlow. cbn.
  destruct (IfEnableQueryLog (ses st)); eexists; repeat split; reflexivity.
Qed.

Lemma Execute_short_text_panics_witness :
  exists st',
    Execute Sample.driver "drop" [] Sample.st0 = Panic (SliceBounds 6 4) st' /\
    trace st' = trace Sample.st0.
Proof.
  apply (Execute_short_text_panics Sample.driver "drop" [] Sample.st0).
  cbn. lia.
Defined.

Lemma Execute_rejects_select_witness :
  exists st',
    Execute Sample.driver ("SeLeCt" +:+ " * from users") [] Sample.st0
      = Ret (0%Z, Some ErrExecuteSelect) st' /\
    trace st' = trace Sample.st0 /\
    tx (ses st') = tx (ses Sample.st0) /\
    lastInsertId (ses st') = lastInsertId (ses Sample.st0).
Proof.
  apply (Execute_rejects_select Sample.driver "SeLeCt" " * from users" []
           Sample.st0).
  reflexivity.
Defined.

Lemma recordSql_recorded
    (drv : Driver) (sqlstring : string) (args : list Value) (st : State) :
  recordSql drv sqlstring args st = Ret tt (recorded drv sqlstring args st) /\
  trace (recorded drv sqlstring args st) = trace st /\
  heap (recorded drv sqlstring args st) = heap st /\
  binder (ses (recorded drv sqlstring args st)) = binder (ses st) /\
  tx (ses (recorded drv sqlstring args st)) = tx (ses st) /\
  lastInsertId (ses (recorded drv sqlstring args st)) = lastInsertId (ses st) /\
  IfEnableQueryLog (ses (recorded drv sqlstring args st))
    = IfEnableQueryLog (ses st) /\
  lastSql (ses (recorded drv sqlstring args st)) = Sprintf drv sqlstring args /\
  sqlLogs (ses (recorded drv sqlstring args st))
    = if IfEnableQueryLog (ses st)
      then sqlLogs (ses st) ++ [Sprintf drv sqlstring args]
      else sqlLogs (ses st).
Proof.
  destruct st as [[b t i l q [ | ]] h tr];
    unfold recorded, recordSql, bind, modify, get, ret; cbn;
    repeat split; reflexivity.
Qed.

(** [Execute] written out path by path. *)
Lemma Execute_paths
    (drv : Driver) (sqlstring : string) (args : list Value) (st : State) :
  let st1 := recorded drv sqlstring args st in
  let c := writeConn st in
  let prepared := log_call (EvPrepare c sqlstring) st1 in
  Execute drv sqlstring args st =
  if (6 <=? String.length sqlstring)%nat then
    if String.eqb (operTypeOf sqlstring) "select" then
      Ret (0%Z, Some ErrExecuteSelect) st1
    else
      match db_Prepare drv (trace st) c sqlstring with
      | inr err => Ret (0%Z, Some err) prepared
      | inl stmt =>
          let executed := log_call (EvExec stmt args) prepared in
          match stmt_Exec drv (trace st ++ [EvPrepare c sqlstring]) stmt args with
          | inr errs => Ret (0%Z, Some errs) (log_call (EvStmtClose stmt) executed)
          | inl result =>
              Ret (res_RowsAffected result)
                  (log_call (EvStmtClose stmt)
                     (if String.eqb (operTypeOf sqlstring) "insert" then
                        match res_LastInsertId result with
                        | (id, None) => set_lastInsertId id executed
                        | (_, Some _) => executed
                        end
                      else executed))
          end
      end
  else Panic (SliceBounds 6 (String.length sqlstring)) st1.
Proof.
  intros st1 c prepared.
  destruct (recordSql_recorded drv sqlstring args st)
    as (Hrec & Htr & _ & _ & Htx & _).
  fold st1 in Hrec, Htr, Htx.
  unfold Execute, bind at 1. rewrite Hrec.
  unfold slice, bind, get, ret, panic.
  destruct (6 <=? String.length sqlstring)%nat; [ | reflexivity].
  cbn -[ToLower substring String.eqb]. fold (operTypeOf sqlstring).
  destruct (String.eqb (operTypeOf sqlstring) "select"); [reflexivity | ].
  rewrite Htx.
  replace (match tx (ses st) with
           | Some t => Prepare drv (ViaTx t) sqlstring
           | None => Prepare drv MasterDB sqlstring
           end) with (Prepare drv c sqlstring)
    by (subst c; unfold writeConn; destruct (tx (ses st)); reflexivity).
  unfold Prepare, Exec, Close, modify. cbn -[ToLower substring String.eqb].
  rewrite Htr.
  destruct (db_Prepare drv (trace st) c sqlstring) as [stmt | err];
    [ | reflexivity].
  cbn -[ToLower substring String.eqb]. rewrite ?Htr.
  destruct (stmt_Exec drv (trace st ++ [EvPrepare c sqlstring]) stmt args)
    as [result | errs]; [ | reflexivity].
  destruct (String.eqb (operTypeOf sqlstring) "insert"); [ | reflexivity].
  destruct (res_LastInsertId result) as [id [e | ]]; reflexivity.
Qed.

Ltac split_Execute drv sqlstring args st :=
  rewrite (Execute_paths drv sqlstring args st); cbv zeta;
  destruct (recordSql_recorded drv sqlstring args st)
    as (_ & ?Htr & ?Hheap & ?Hbinder & ?Htx & ?Hid & ?Hflag & ?Hsql & ?Hlogs).

(** Every successful write went through the database: the statement was
    prepared on the connection of the session, executed with some result, and
    the count of affected rows read without error. *)
Lemma Execute_success_calls
    (drv : Driver) (sqlstring : string) (args : list Value) (n : Z)
    (st st' : State) :
  Execute drv sqlstring args st = Ret (n, None) st' ->
  exists stmt result,
    db_Prepare drv (trace st) (writeConn st) sqlstring = inl stmt /\
    stmt_Exec drv (trace st ++ [EvPrepare (writeConn st) sqlstring]) stmt args
      = inl result /\
    res_RowsAffected result = (n, None).
Proof.
  rewrite (Execute_paths drv sqlstring args st). cbv zeta.
  destruct (6 <=? String.length sqlstring)%nat; [ | discriminate].
  destruct (String.eqb (operTypeOf sqlstring) "select"); [discriminate | ].
  destruct (db_Prepare drv (trace st) (writeConn st) sqlstring)
    as [stmt | err]; [ | discriminate].
  destruct (stmt_Exec drv (trace st ++ [EvPrepare (writeConn st) sqlstring])
              stmt args) as [result | errs] eqn:Hexec; [ | discriminate].
  intros H. exists stmt, result.
  split; [reflexivity | split; [exact Hexec | congruence]].
Qed.

(** C10: let the database prepare the statement, execute it with some result,
    and give the count of affected rows without error.  If the first six
    bytes lower-cased are "insert", [Execute] reports success with that count
    whether or not the generated identifier can be read: [LastInsertId]
    afterwards answers the identifier of the result when reading it succeeds,
    and what it answered before the write when reading it fails.  If they are
    "update" or "delete", [Execute] reports success with that count and
    [LastInsertId] answers what it answered before the write. *)
Theorem Execute_lastInsertId
    (drv : Driver) (sqlstring : string) (args : list Value) (st : State)
    (stmt : Stmt) (result : Result) (n : Z) :
  (6 <= String.length sqlstring)%nat ->
  db_Prepare drv (trace st) (writeConn st) sqlstring = inl stmt ->
  stmt_Exec drv (trace st ++ [EvPrepare (writeConn st) sqlstring]) stmt args
    = inl result ->
  res_RowsAffected result = (n, None) ->
  let operType := ToLower (substring 0 6 sqlstring) in
  let before := lastInsertId (ses st) in
  (operType = "insert" ->
     (forall id, res_LastInsertId result = (id, None) ->
        exists st',
          Execute drv sqlstring args st = Ret (n, None) st' /\
          LastInsertId st' = Ret id st') /\
     (forall id e, res_LastInsertId result = (id, Some e) ->
        exists st',
          Execute drv sqlstring args st = Ret (n, None) st' /\
          LastInsertId st' = Ret before st')) /\
  (operType = "update" \/ operType = "delete" ->
     exists st',
       Execute drv sqlstring args st = Ret (n, None) st' /\
       LastInsertId st' = Ret before st').
Proof.
  intros Hlen Hprep Hexec Hrows operType before.
  rewrite (Execute_paths drv sqlstring args st). cbv zeta.
  destruct (recordSql_recorded drv sqlstring args st)
    as (_ & _ & _ & _ & _ & Hid & _).
  apply Nat.leb_le in Hlen. rewrite Hlen, Hprep, Hexec, Hrows.
  fold (operTypeOf sqlstring) in operType. subst operType before.
  split.
  - intros Hins. rewrite Hins. cbn [String.eqb Ascii.eqb Bool.eqb].
    split.
    + intros id Hlast. rewrite Hlast.
      eexists. split; [reflexivity | ]. reflexivity.
    + intros id e Hlast. rewrite Hlast.
      eexists. split; [reflexivity | ].
      unfold LastInsertId. cbn. rewrite Hid. reflexivity.
  - intros Hkind.
    assert (Hins : String.eqb (operTypeOf sqlstring) "insert" = false)
      by (destruct Hkind as [-> | ->]; reflexivity).
    assert (Hsel : String.eqb (operTypeOf sqlstring) "select" = false)
      by (destruct Hkind as [-> | ->]; reflexivity).
    rewrite Hins, Hsel.
    eexists. split; [reflexivity | ].
    unfold LastInsertId. cbn. rewrite Hid. reflexivity.
Qed.

Lemma Execute_lastInsertId_witness :
  (exists st',
     Execute Sample.driver "INSERT INTO users(name) VALUES(?)" [VStr "ann"]
       Sample.st0 = Ret (1%Z, None) st' /\
     LastInsertId st' = Ret 42%Z st') /\
  lastInsertId (ses Demo.inserted) = 42%Z /\
  (exists st',
     Execute Demo.driverNoId "INSERT INTO users(name) VALUES(?)" [VStr "bob"]
       Demo.inserted = Ret (1%Z, None) st' /\
     LastInsertId st' = Ret 42%Z st') /\
  (exists st',
     Execute Sample.driver "Delete from users" [] Demo.inserted
       = Ret (1%Z, None) st' /\
     LastInsertId st' = Ret 42%Z st').
Proof.
  split; [ | split; [reflexivity | split]].
  - refine (proj1 (proj1 (Execute_lastInsertId Sample.driver
              "INSERT INTO users(name) VALUES(?)" [VStr "ann"] Sample.st0
              7%nat (mkResult (42%Z, None) (1%Z, None)) 1%Z _ _ _ _) _)
              42%Z _);
      try reflexivity.
    cbn. lia.
  - refine (proj2 (proj1 (Execute_lastInsertId Demo.driverNoId
              "INSERT INTO users(name) VALUES(?)" [VStr "bob"] Demo.inserted
              7%nat (mkResult (0%Z, Some (ErrDriver 3)) (1%Z, None)) 1%Z
              _ _ _ _) _) 0%Z (ErrDriver 3) _);
      try reflexivity.
    cbn. lia.
  - refine (proj2 (Execute_lastInsertId Sample.driver "Delete from users" []
              Demo.inserted 7%nat (mkResult (42%Z, None) (1%Z, None)) 1%Z
              _ _ _ _) _);
      try reflexivity.
    + cbn. lia.
    + right. reflexivity.
Defined.

(** ** Transactions *)

Lemma Transaction_loop_succeed
    (drv : Driver) (done rest : list Closer) (st st2 : State) :
  succeed done st st2 ->
  Transaction_loop drv (done ++ rest) st = Transaction_loop drv rest st2.
Proof.
  induction 1 as [st | closer done' st st1 st2 Hret _ IH]; [reflexivity | ].
  cbn. unfold bind at 1. rewrite Hret. exact IH.
Qed.

Lemma Transaction_begin (drv : Driver) (closers : list Closer) (st : State) :
  Transaction drv closers st =
  match db_Begin drv (trace st) with
  | inl t => Transaction_loop drv closers (set_tx (Some t) (log_call EvBegin st))
  | inr e => Ret (Some e) (set_tx None (log_call EvBegin st))
  end.
Proof.
  unfold Transaction, Begin, bind.
  destruct (db_Begin drv (trace st)); reflexivity.
Qed.

(** C9, as the code has it: [Transaction] first begins a transaction.  If
    that fails, its error is returned.  Otherwise the closers run in order,
    each on the session as the one before left it.  At the first closer that
    returns an error, if the session still holds a transaction handle, a
    rollback is issued on it and the closer's error is returned, whatever
    closers come later.  If every closer succeeds and the session still holds
    a handle, a commit is issued on it and its result returned.  If by then a
    closer has left the session without a handle, [Transaction] panics where
    it would roll back or commit. *)
Theorem Transaction_steps (drv : Driver) (closers : list Closer) (st : State) :
  let begun t := set_tx t (log_call EvBegin st) in
  (forall e, db_Begin drv (trace st) = inr e ->
     Transaction drv closers st = Ret (Some e) (begun None)) /\
  (forall t done bad later st2 e st3,
     db_Begin drv (trace st) = inl t ->
     closers = (done ++ bad :: later)%list ->
     succeed done (begun (Some t)) st2 ->
     bad st2 = Ret (Some e) st3 ->
     (forall h, tx (ses st3) = Some h ->
        Transaction drv closers st
        = Ret (Some e) (set_tx None (log_call (EvRollback (Some h)) st3))) /\
     (tx (ses st3) = None ->
        Transaction drv closers st = Panic NilDereference st3)) /\
  (forall t st2,
     db_Begin drv (trace st) = inl t ->
     succeed closers (begun (Some t)) st2 ->
     (forall h, tx (ses st2) = Some h ->
        Transaction drv closers st
        = Ret (tx_Commit drv (trace st2) (Some h))
              (set_tx None (log_call (EvCommit (Some h)) st2))) /\
     (tx (ses st2) = None ->
        Transaction drv closers st = Panic NilDereference st2)).
Proof.
  intros begun. rewrite Transaction_begin.
  split; [ | split].
  - intros e Hb. rewrite Hb. reflexivity.
  - intros t done bad later st2 e st3 Hb -> Hdone Hbad. rewrite Hb.
    fold (begun (Some t)).
    rewrite (Transaction_loop_succeed drv done (bad :: later) _ st2 Hdone).
    cbn. unfold bind. rewrite Hbad. unfold Rollback.
    split; [intros h Hh | intros Hh]; rewrite Hh; reflexivity.
  - intros t st2 Hb Hall. rewrite Hb. fold (begun (Some t)).
    rewrite <- (app_nil_r closers).
    rewrite (Transaction_loop_succeed drv closers [] _ st2 Hall).
    cbn. unfold Commit.
    split; [intros h Hh | intros Hh]; rewrite Hh; reflexivity.
Qed.

Lemma Transaction_steps_witness :
  (exists st',
     Transaction Sample.driver
       [Sample.note "a"; Sample.note "b"; Sample.failing (ErrDriver 5);
        Sample.note "d"] Sample.st0 = Ret (Some (ErrDriver 5)) st' /\
     sqlLogs (ses st') = ["a"; "b"] /\
     trace st' = [EvBegin; EvRollback (Some 1)]) /\
  (exists st',
     Transaction Sample.driver
       [Sample.note "a"; Sample.note "b"; Sample.note "c"] Sample.st0
       = Ret None st' /\
     sqlLogs (ses st') = ["a"; "b"; "c"] /\
     trace st' = [EvBegin; EvCommit (Some 1)]).
Proof.
  pose (begun := set_tx (Some 1) (log_call EvBegin Sample.st0)).
  pose (st2 := Sample.run (Sample.note "b") (Sample.run (Sample.note "a") begun)).
  pose (st3 := Sample.run (Sample.note "c") st2).
  assert (H2 : succeed [Sample.note "a"; Sample.note "b"] begun st2).
  { eapply succeed_cons; [reflexivity | ].
    eapply succeed_cons; [reflexivity | apply succeed_nil]. }
  assert (H3 : succeed [Sample.note "a"; Sample.note "b"; Sample.note "c"]
                 begun st3).
  { eapply succeed_cons; [reflexivity | ].
    eapply succeed_cons; [reflexivity | ].
    eapply succeed_cons; [reflexivity | apply succeed_nil]. }
  split.
  - exists (set_tx None (log_call (EvRollback (Some 1)) st2)).
    split; [ | split; reflexivity].
    apply (proj1 (proj1 (proj2 (Transaction_steps Sample.driver
                   [Sample.note "a"; Sample.note "b";
                    Sample.failing (ErrDriver 5); Sample.note "d"] Sample.st0))
                 1 [Sample.note "a"; Sample.note "b"]
                 (Sample.failing (ErrDriver 5)) [Sample.note "d"]
                 st2 (ErrDriver 5) st2 eq_refl eq_refl H2 eq_refl) 1).
    reflexivity.
  - exists (set_tx None (log_call (EvCommit (Some 1)) st3)).
    split; [ | split; reflexivity].
    apply (proj1 (proj2 (proj2 (Transaction_steps Sample.driver
                   [Sample.note "a"; Sample.note "b"; Sample.note "c"]
                   Sample.st0)) 1 st3 eq_refl H3) 1).
    reflexivity.
Defined.

(** C9, counterexample: a transaction of one step, which commits by itself
    and returns no error.  The step succeeds, and then [Transaction] commits
    on a session that holds no handle any more: it panics, so no commit of
    its own is issued and no result is returned. *)
Lemma Transaction_panics_after_step_commits :
  let begun := set_tx (Some 1) (log_call EvBegin Sample.st0) in
  let after := set_tx None (log_call (EvCommit (Some 1)) begun) in
  db_Begin Sample.driver (trace Sample.st0) = inl 1 /\
  succeed [Commit Sample.driver] begun after /\
  Transaction Sample.driver [Commit Sample.driver] Sample.st0
    = Panic NilDereference after /\
  trace after = [EvBegin; EvCommit (Some 1)].
Proof.
  cbv zeta. split; [reflexivity | split; [ | split; reflexivity]].
  eapply succeed_cons; [reflexivity | apply succeed_nil].
Qed.

(** ** Materialisation of a single record *)

Lemma Scan_error_is_scan_fault (rows : Rows) (n : nat) (e : Error) :
  snd (Scan rows n) = Some e -> exists f, e = ErrScan f.
Proof.
  unfold Scan. destruct (rs_current rows) as [item | ]; cbn.
  - destruct (decide (n = length (cells item))); cbn.
    + destruct (bad_col item); cbn; intros [=]; subst; eauto.
    + intros [=]; subst; eauto.
  - intros [=]; subst; eauto.
Qed.

(** Storing is positional: the [k]-th value lands in the [k]-th target and
    nowhere else, and the targets of the modelled helper are distinct. *)
Lemma storeAt_length (idxs : list nat) :
  forall (vals fs : list Value), length (storeAt idxs vals fs) = length fs.
Proof.
  induction idxs as [ | i idxs IH]; intros [ | v vals] fs; cbn; try reflexivity.
  rewrite IH. apply length_insert.
Qed.

Lemma storeAt_other (idxs : list nat) (i : nat) :
  i ∉ idxs ->
  forall (vals fs : list Value), storeAt idxs vals fs !! i = fs !! i.
Proof.
  induction idxs as [ | j idxs IH]; intros Hnot [ | v vals] fs; cbn;
    try reflexivity.
  apply not_elem_of_cons in Hnot as [Hne Hnot].
  rewrite (IH Hnot). apply list_lookup_insert_ne. congruence.
Qed.

Lemma storeAt_lookup (idxs : list nat) :
  forall (vals fs : list Value) (k i : nat) (v : Value),
    NoDup idxs ->
    idxs !! k = Some i -> vals !! k = Some v -> (i < length fs)%nat ->
    storeAt idxs vals fs !! i = Some v.
Proof.
  induction idxs as [ | j idxs IH]; intros vals fs k i v Hnd Hi Hv Hlt.
  - discriminate Hi.
  - apply NoDup_cons in Hnd as [Hj Hnd].
    destruct vals as [ | w vals]; [destruct k; discriminate Hv | ].
    destruct k as [ | k]; cbn in Hi, Hv |- *.
    + injection Hi as ->. injection Hv as ->.
      rewrite (storeAt_other idxs i Hj). now apply list_lookup_insert_eq.
    + apply (IH vals _ k i v Hnd Hi Hv). now rewrite length_insert.
Qed.

Lemma scanIndices_ge (fs : list FieldDecl) :
  forall (i j : nat), j ∈ scanIndices i fs -> (i <= j)%nat.
Proof.
  induction fs as [ | f fs IH]; intros i j Hj; cbn in Hj.
  - now apply elem_of_nil in Hj.
  - destruct (fd_ignore f).
    + apply IH in Hj. lia.
    + apply elem_of_cons in Hj as [-> | Hj]; [lia | ]. apply IH in Hj. lia.
Qed.

Lemma scanIndices_NoDup (fs : list FieldDecl) :
  forall (i : nat), NoDup (scanIndices i fs).
Proof.
  induction fs as [ | f fs IH]; intros i; cbn.
  - constructor.
  - destruct (fd_ignore f); [apply IH | ].
    constructor; [ | apply IH].
    intros Hin. apply scanIndices_ge in Hin. lia.
Qed.

(** C8: under the Record shape the cursor is advanced once.  With no row and
    no cursor error the result is [ErrNoRows], which is no scan error, and
    nothing else changes; a cursor that stopped on an error gives that error.
    With a row, that row alone is taken off the cursor
    and scanned, value by value in order, into the targets [strutForScan]
    gives for the record; the error is the one [Scan] gave, and the rows
    behind it stay on the cursor. *)
Theorem scan_record
    (strutForScan : Iface -> option (loc * list nat)) (rows : Rows) (st : State) :
  BindType (binder (ses st)) = OBJECT_STRUCT ->
  let rows' := snd (Next rows) in
  (rs_pending rows = [] -> rs_end rows = None ->
     scan strutForScan rows st = Ret (Some ErrNoRows, rows') st /\
     forall f, ErrNoRows <> ErrScan f) /\
  (forall e, rs_pending rows = [] -> rs_end rows = Some e ->
     scan strutForScan rows st = Ret (Some e, rows') st) /\
  (forall item rest l targets fs,
     rs_pending rows = item :: rest ->
     strutForScan (BindOrigin (binder (ses st))) = Some (l, targets) ->
     heap st !! l = Some (OStruct fs) ->
     let stored := fst (Scan rows' (length targets)) in
     let err := snd (Scan rows' (length targets)) in
     rs_current rows' = Some item /\
     rs_pending rows' = rest /\
     scan strutForScan rows st
       = Ret (err, rows')
             (set_heap (<[l := OStruct (storeAt targets stored fs)]> (heap st)) st) /\
     (bad_col item = None -> length (cells item) = length targets ->
        stored = cells item /\ err = None) /\
     (forall e, err = Some e -> exists f, e = ErrScan f)).
Proof.
  intros Hshape rows'. split; [ | split].
  - intros Hnone Hend. split; [ | discriminate].
    unfold scan, bind, getB. rewrite Hshape.
    unfold scanRow, rows', Next, Err. rewrite Hnone, Hend. reflexivity.
  - intros e Hnone Hend.
    unfold scan, bind, getB. rewrite Hshape.
    unfold scanRow, rows', Next, Err. rewrite Hnone, Hend. reflexivity.
  - intros item rest l targets fs Hsome Htargets Hl stored err.
    assert (Hrows' : rows' = mkRows (rs_columns rows) rest (rs_end rows)
                               (Some item) None)
      by (unfold rows', Next; rewrite Hsome; reflexivity).
    split; [rewrite Hrows'; reflexivity | ].
    split; [rewrite Hrows'; reflexivity | ].
    split; [ | split].
    + unfold scan, bind, getB. rewrite Hshape.
      unfold scanRow. fold rows'.
      replace (Next rows) with (true, rows')
        by (unfold rows', Next; rewrite Hsome; reflexivity).
      cbn [negb]. unfold scanTargets, bind, ret. rewrite Htargets.
      cbn [fst snd].
      destruct (Scan rows' (length targets)) as [stored' err'] eqn:Hscan.
      subst stored err. cbn [fst snd].
      unfold storeFields. rewrite Hl.
      destruct err'; [reflexivity | ].
      unfold Err. rewrite Hrows'. reflexivity.
    + intros Hgood Hlen. subst stored err. rewrite Hrows'. unfold Scan. cbn.
      rewrite decide_True by (symmetry; exact Hlen).
      rewrite Hgood. split; reflexivity.
    + intros e. apply Scan_error_is_scan_fault.
Qed.

Lemma scan_record_witness :
  scan Model.strutForScan (Sample.cursor []) Sample.boundUser
    = Ret (Some ErrNoRows, snd (Next (Sample.cursor []))) Sample.boundUser /\
  (exists st',
     scan Model.strutForScan (Sample.cursor [Sample.ann; Sample.bob])
       Sample.boundUser
       = Ret (None, snd (Next (Sample.cursor [Sample.ann; Sample.bob]))) st' /\
     heap st' !! 0 = Some (OStruct [VInt 1; VNil; VBytes "ann"]) /\
     rs_pending (snd (Next (Sample.cursor [Sample.ann; Sample.bob])))
       = [Sample.bob]).
Proof.
  split.
  - apply (proj1 (scan_record Model.strutForScan (Sample.cursor [])
                    Sample.boundUser eq_refl));
      reflexivity.
  - eexists. split; [ | split].
    + apply (proj1 (proj2 (proj2
               (proj2 (proj2 (scan_record Model.strutForScan
                         (Sample.cursor [Sample.ann; Sample.bob])
                         Sample.boundUser eq_refl))
                  Sample.ann [Sample.bob] 0 [0; 2] [VNil; VNil; VNil]
                  eq_refl eq_refl eq_refl)))).
    + reflexivity.
    + reflexivity.
Defined.

(** ** Materialisation of mappings *)

Lemma set_heap_same (st : State) : set_heap (heap st) st = st.
Proof. destruct st; reflexivity. Qed.

Lemma setColumns_putColumns (r : loc) (columns : list string) :
  forall (values : list Value) (st : State) (m : gmap string Value),
    heap st !! r = Some (OMap m) ->
    setColumns (reflect.VAddr TMap r) columns values st
    = Ret tt (set_heap (<[r := OMap (putColumns columns values m)]> (heap st)) st).
Proof.
  induction columns as [ | col columns IH]; intros values st m Hr.
  - cbn. unfold ret. rewrite (insert_id _ _ _ Hr). now rewrite set_heap_same.
  - destruct values as [ | val values].
    + cbn. unfold ret. rewrite (insert_id _ _ _ Hr). now rewrite set_heap_same.
    + cbn [setColumns putColumns]. unfold bind, SetMapIndex. rewrite Hr.
      rewrite (IH values _ (mapStore col (decode val) m))
        by (cbn; apply lookup_insert_eq).
      cbn. unfold set_heap. cbn. now rewrite insert_insert_eq.
Qed.

(** Under the MappingList shape the loop never reports an error, whatever
    [Scan] answers, and every row appends the same reference: the one map
    made at bind time. *)
Lemma scanMapAll_loop_one_map (r ls : loc) (elt : GoType) (columns : list string)
    (pending : list RowItem) :
  r <> ls ->
  forall (rows : Rows) (values : list Value) (st : State)
         (m : gmap string Value) (xs : list Value),
    BindType (binder (ses st)) = OBJECT_MAP_SLICE ->
    BindResult (binder (ses st)) = reflect.VAddr TMap r ->
    BindResultSlice (binder (ses st)) = reflect.VAddr (TSlice elt) ls ->
    heap st !! r = Some (OMap m) ->
    heap st !! ls = Some (OSlice xs) ->
    exists rows' st' m',
      scanMapAll_loop pending rows columns values st = Ret (None, rows') st' /\
      heap st' !! ls = Some (OSlice (xs ++ replicate (length pending) (VMapRef r))) /\
      heap st' !! r = Some (OMap m').
Proof.
  intros Hne. induction pending as [ | item rest IH];
    intros rows values st m xs Hshape Hres Hslice Hr Hls.
  - cbn. unfold ret. exists (snd (Next rows)), st, m.
    rewrite app_nil_r. auto.
  - cbn [scanMapAll_loop length replicate].
    destruct (Scan (snd (Next rows)) (length columns)) as [stored e].
    unfold bind at 1. unfold getB. rewrite Hshape, Hres, Hslice.
    unfold bind at 1.
    rewrite (setColumns_putColumns r columns _ st m Hr).
    set (m1 := putColumns columns (stored ++ drop (length stored) values) m).
    set (st1 := set_heap (<[r := OMap m1]> (heap st)) st).
    unfold bind at 1. unfold SetAppend, bind, valueAt.
    assert (Hls1 : heap st1 !! ls = Some (OSlice xs))
      by (subst st1; cbn; rewrite lookup_insert_ne by exact Hne; exact Hls).
    rewrite Hls1.
    set (st2 := set_heap (<[ls := OSlice (xs ++ [VMapRef r])]> (heap st1)) st1).
    destruct (IH (snd (Next rows)) (stored ++ drop (length stored) values)
                 st2 m1 (xs ++ [VMapRef r]))
      as (rows' & st' & m' & Hrun & Hls' & Hr'); try assumption.
    + subst st2 st1. cbn. rewrite lookup_insert_ne by congruence.
      apply lookup_insert_eq.
    + subst st2. cbn. apply lookup_insert_eq.
    + exists rows', st', m'. split; [exact Hrun | split; [ | exact Hr']].
      rewrite Hls'. now rewrite <- app_assoc.
Qed.

Lemma scanMapAll_one_map (strutForScan : Iface -> option (loc * list nat))
    (r ls : loc) (elt : GoType) (rows : Rows) (st : State)
    (columns : list string) (m : gmap string Value) (xs : list Value) :
  r <> ls ->
  BindType (binder (ses st)) = OBJECT_MAP_SLICE ->
  BindResult (binder (ses st)) = reflect.VAddr TMap r ->
  BindResultSlice (binder (ses st)) = reflect.VAddr (TSlice elt) ls ->
  heap st !! r = Some (OMap m) ->
  heap st !! ls = Some (OSlice xs) ->
  Columns rows = inl columns ->
  exists rows' st' m',
    scan strutForScan rows st = Ret (None, rows') st' /\
    heap st' !! ls
      = Some (OSlice (xs ++ replicate (length (rs_pending rows)) (VMapRef r))) /\
    heap st' !! r = Some (OMap m').
Proof.
  intros Hne Hshape Hres Hslice Hr Hls Hcols.
  unfold scan, bind, getB. rewrite Hshape. unfold scanMapAll. rewrite Hcols.
  eapply scanMapAll_loop_one_map; eassumption.
Qed.

Ltac evaluate := vm_compute; reflexivity.

(** C2, where the code departs from it: a cursor of three rows whose second
    row cannot be scanned, read under the MappingList shape.  [scanMapAll]
    throws the answer of [Scan] away: it goes on to the third row, reports no
    error, and the slice ends with three elements. *)
Theorem scan_maps_goes_past_scan_error :
  let rows := Sample.cursor [Sample.ann; Sample.broken; Sample.bob] in
  snd (Scan (snd (Next (snd (Next rows)))) 2) = Some (ErrScan (ScanConvert 0)) /\
  exists rows' st',
    scan Model.strutForScan rows Sample.boundMaps = Ret (None, rows') st' /\
    rs_pending rows' = [] /\
    heap st' !! 2 = Some (OSlice [VMapRef 4; VMapRef 4; VMapRef 4]).
Proof.
  cbn zeta. split; [evaluate | ].
  eexists. eexists. split; [evaluate | split; evaluate].
Qed.

(** The same cursor under the RecordList shape: [scanAll] stops at the second
    row with the scan error, keeps the first row in the slice and leaves the
    third on the cursor. *)
Lemma scan_records_stops_at_scan_error :
  let rows := Sample.cursor [Sample.ann; Sample.broken; Sample.bob] in
  exists rows' st',
    scan Model.strutForScan rows Sample.boundUsers
      = Ret (Some (ErrScan (ScanConvert 0)), rows') st' /\
    rs_pending rows' = [Sample.bob] /\
    heap st' !! 3 = Some (OSlice [VStruct [VInt 1; VNil; VBytes "ann"]]).
Proof.
  cbn zeta. eexists. eexists.
  split; [evaluate | split; evaluate].
Qed.

(** C3, where the code departs from it: two rows read under the MappingList
    shape.  Both elements of the slice are one reference, to the map made at
    bind time; read through either element it holds the second row, the first
    row is gone; and an assignment through element 0 shows through
    element 1. *)
Theorem scan_maps_appends_one_map :
  exists rows' st',
    scan Model.strutForScan (Sample.cursor [Sample.ann; Sample.bob])
      Sample.boundMaps
      = Ret (None, rows') st' /\
    heap st' !! 2 = Some (OSlice [VMapRef 4; VMapRef 4]) /\
    (exists m, mapOfElem st' 2 0 = Some m /\
               m !! "id" = Some (VInt 2) /\ m !! "name" = Some (VStr "bob")) /\
    (exists m, mapOfElem st' 2 1 = Some m /\
               m !! "id" = Some (VInt 2) /\ m !! "name" = Some (VStr "bob")) /\
    (exists st'' m,
       assignElem 2 0 "id" (VInt 99) st' = Ret tt st'' /\
       mapOfElem st'' 2 1 = Some m /\ m !! "id" = Some (VInt 99)).
Proof.
  eexists. eexists. split; [evaluate | ].
  split; [evaluate | ].
  split; [eexists; split; [evaluate | split; evaluate] | ].
  split; [eexists; split; [evaluate | split; evaluate] | ].
  eexists. eexists. split; [evaluate | split; evaluate].
Qed.

(** * Further properties *)

(** ** Classification of every destination *)

Ltac all_kinds tab :=
  destruct tab as [ | ? | [ | | | | | ? | | [ | | | | | ? | | ? | ? ] | ? ] ?
                  | ? | [ | | | | | ? | | [ | | | | | ? | | ? | ? ] | ? ] ].

Ltac open_state st :=
  destruct st as [[[? ? ? ? ? ? ?] ? ? ? ? ?] ? ?].

(** X1: what [parseTable] settles.  On a destination that is neither a
    record nor a slice of records no method is called, and [parseTable]
    returns.  Whenever [parseTable] returns, whatever the destination: on a
    nil destination there is no error and nothing has changed; there is an
    error exactly when the destination is present and of no accepted shape;
    otherwise the session has the shape the switch settles on. *)
Theorem parseTable_classifies
    (getTagName : Iface -> list string) (tab : Iface) (st : State) :
  let st0 := with_binder (set_BindOrigin tab) st in
  (shapeOf tab <> Some OBJECT_STRUCT ->
   shapeOf tab <> Some OBJECT_STRUCT_SLICE ->
   exists r st', parseTable getTagName st0 = Ret r st') /\
  (forall r st',
     parseTable getTagName st0 = Ret r st' ->
     (tab = INil -> r = None /\ st' = st0) /\
     (r <> None <-> unrecognized tab) /\
     (forall sh, shapeOf tab = Some sh -> BindType (binder (ses st')) = sh)).
Proof.
  open_state st. unfold unrecognized. split.
  - all_kinds tab; cbn; intros _ _; eexists; eexists; reflexivity.
  - all_kinds tab; cbn; intros r st' [= <- <-];
      cbn; repeat split; try congruence; try tauto;
      try (intros [? ?]; congruence); try (intros; split; congruence).
Qed.

Lemma parseTable_classifies_witness :
  (exists r st',
     parseTable Model.getTagName
       (with_binder (set_BindOrigin (IPtr (TSlice TMap) 2)) Sample.st0)
       = Ret r st') /\
  BindType
    (binder (ses (Sample.run (parseTable Model.getTagName)
                    (with_binder (set_BindOrigin (IPtr (TStruct Sample.User) 0))
                       Sample.st0))))
    = OBJECT_STRUCT.
Proof.
  split.
  - apply (proj1 (parseTable_classifies Model.getTagName (IPtr (TSlice TMap) 2)
                    Sample.st0)); cbn; discriminate.
  - refine (proj2 (proj2 (proj2 (parseTable_classifies Model.getTagName
                                   (IPtr (TStruct Sample.User) 0) Sample.st0)
                            None _ _)) OBJECT_STRUCT _);
      reflexivity.
Defined.

(** X2: binding a table name sets the shape to [OBJECT_STRING] and the table
    name to the string as given, and touches nothing else: the field list,
    the template, the limit and the heap stay as they were. *)
Theorem Bind_string_keeps_fields
    (getTagName : Iface -> list string) (name : string) (st : State) :
  exists st',
    Bind getTagName (IString name) st = Ret tt st' /\
    BindType (binder (ses st')) = OBJECT_STRING /\
    BindName (binder (ses st')) = name /\
    BindFields (binder (ses st')) = BindFields (binder (ses st)) /\
    BindResult (binder (ses st')) = BindResult (binder (ses st)) /\
    BindResultSlice (binder (ses st')) = BindResultSlice (binder (ses st)) /\
    BindLimit (binder (ses st')) = BindLimit (binder (ses st)) /\
    heap st' = heap st.
Proof.
  open_state st. eexists. split; [reflexivity | ]. cbn. repeat split.
Qed.

(** X3: the table name of a record.  Bound through a pointer, or as the
    element type of a slice, a [BindName] method wins whatever its receiver;
    bound as a plain struct value, only a method declared on the value is
    seen.  Without a visible method the name of the type is used. *)
Theorem Bind_table_name
    (getTagName : Iface -> list string) (d : StructDecl) (l : loc) (st : State) :
  let declared := match sd_BindName d with
                  | Some (_, n) => n
                  | None => sd_name d
                  end in
  let onValue := match sd_BindName d with
                 | Some (ByValue, n) => n
                 | _ => sd_name d
                 end in
  (exists st', Bind getTagName (IPtr (TStruct d) l) st = Ret tt st' /\
               BindName (binder (ses st')) = declared) /\
  (exists st', Bind getTagName (IDirect (TStruct d)) st = Ret tt st' /\
               BindName (binder (ses st')) = onValue) /\
  (exists st', Bind getTagName (IPtr (TSlice (TStruct d)) l) st = Ret tt st' /\
               BindName (binder (ses st')) = declared) /\
  (exists st', Bind getTagName (IDirect (TSlice (TStruct d))) st = Ret tt st' /\
               BindName (binder (ses st')) = declared).
Proof.
  open_state st. destruct d as [tn fs [[[ | ] n] | ]]; cbn;
    repeat split; eexists; (split; [reflexivity | reflexivity]).
Qed.

Lemma fresh_unused (h : gmap loc Obj) : h !! fresh (dom h) = None.
Proof. apply not_elem_of_dom. apply is_fresh. Qed.

(** X4: binding a slice makes the per-row template at a location the heap
    did not use: a new empty map for a slice of maps, a new zero record for a
    slice of records.  Every object the caller owns is left as it was, and
    the slice to fill is the caller's own. *)
Theorem Bind_slice_fresh_template
    (getTagName : Iface -> list string) (tab : Iface) (st : State) :
  shapeOf tab = Some OBJECT_MAP_SLICE \/ shapeOf tab = Some OBJECT_STRUCT_SLICE ->
  exists st' r elt,
    Bind getTagName tab st = Ret tt st' /\
    heap st !! r = None /\
    valueType (Indirect (ValueOf tab)) = TSlice elt /\
    (BindResult (binder (ses st')) = reflect.VAddr elt r /\
       elt = TMap /\ heap st' = <[r := OMap ∅]> (heap st)
     \/
     BindResult (binder (ses st')) = reflect.VPtr elt r /\
       heap st' = <[r := zeroStruct elt]> (heap st)) /\
    BindResultSlice (binder (ses st')) = Indirect (ValueOf tab) /\
    (forall k, is_Some (heap st !! k) -> heap st' !! k = heap st !! k).
Proof.
  open_state st.
  intros [H | H]; by_kind tab H;
    eexists; exists (fresh (dom heap0)); eexists;
    (split; [reflexivity | ]); cbn;
    (split; [apply fresh_unused | ]);
    (split; [reflexivity | ]);
    (split; [first [left; repeat split; reflexivity | right; split; reflexivity] | ]);
    (split; [reflexivity | ]);
    intros k [o Hk]; apply lookup_insert_ne;
    intros <-; rewrite fresh_unused in Hk; discriminate Hk.
Qed.

Lemma Bind_slice_fresh_template_witness :
  exists st' r elt,
    Bind Model.getTagName (IPtr (TSlice TMap) 2) Sample.st0 = Ret tt st' /\
    heap Sample.st0 !! r = None /\
    valueType (Indirect (ValueOf (IPtr (TSlice TMap) 2))) = TSlice elt /\
    (BindResult (binder (ses st')) = reflect.VAddr elt r /\
       elt = TMap /\ heap st' = <[r := OMap ∅]> (heap Sample.st0)
     \/
     BindResult (binder (ses st')) = reflect.VPtr elt r /\
       heap st' = <[r := zeroStruct elt]> (heap Sample.st0)) /\
    BindResultSlice (binder (ses st'))
      = Indirect (ValueOf (IPtr (TSlice TMap) 2)) /\
    (forall k, is_Some (heap Sample.st0 !! k) ->
               heap st' !! k = heap Sample.st0 !! k).
Proof.
  apply (Bind_slice_fresh_template Model.getTagName (IPtr (TSlice TMap) 2)
           Sample.st0).
  left. reflexivity.
Defined.

(** X5: the row limit.  A bind of a record or of a map sets it to 1; a bind
    of a table name or of a slice leaves it as it was, so the 1 of an earlier
    record bind is still there after a slice is bound. *)
Theorem Bind_limit
    (getTagName : Iface -> list string) (tab : Iface) (sh : BindShape)
    (st : State) :
  shapeOf tab = Some sh ->
  exists st',
    Bind getTagName tab st = Ret tt st' /\
    BindLimit (binder (ses st'))
      = match sh with
        | OBJECT_STRUCT | OBJECT_MAP => 1%Z
        | _ => BindLimit (binder (ses st))
        end.
Proof.
  open_state st. intros H.
  by_kind tab H; injection H as <-; eexists; (split; reflexivity).
Qed.

Lemma Bind_limit_witness :
  exists st',
    Bind Model.getTagName (IPtr (TSlice (TStruct Sample.User)) 3) Sample.boundUser
      = Ret tt st' /\
    BindLimit (binder (ses st')) = BindLimit (binder (ses Sample.boundUser)).
Proof.
  apply (Bind_limit Model.getTagName (IPtr (TSlice (TStruct Sample.User)) 3)
           OBJECT_STRUCT_SLICE Sample.boundUser).
  reflexivity.
Defined.

(** X6: nothing of an earlier bind leaks into the shape, the table name or
    the field list: for a destination that is a record, a map or a slice of
    either, the three are the same from whatever session the bind starts,
    provided [getTagName] looks at the type of a record and not at where it
    is stored. *)
Theorem Bind_forgets_earlier_bind
    (getTagName : Iface -> list string) (tab : Iface) (sh : BindShape)
    (st1 st2 : State) :
  (forall t l l', getTagName (IPtr t l) = getTagName (IPtr t l')) ->
  shapeOf tab = Some sh -> sh <> OBJECT_STRING ->
  exists st1' st2',
    Bind getTagName tab st1 = Ret tt st1' /\
    Bind getTagName tab st2 = Ret tt st2' /\
    BindType (binder (ses st1')) = BindType (binder (ses st2')) /\
    BindName (binder (ses st1')) = BindName (binder (ses st2')) /\
    BindFields (binder (ses st1')) = BindFields (binder (ses st2')).
Proof.
  open_state st1. open_state st2. intros Htype H Hne.
  by_kind tab H; try (injection H as <-; congruence);
    eexists; eexists; (split; [reflexivity | split; [reflexivity | ]]);
    cbn; repeat split; apply Htype.
Qed.

Lemma Bind_forgets_earlier_bind_witness :
  exists st1' st2',
    Bind Model.getTagName (IPtr (TStruct Sample.User) 0) Sample.st0
      = Ret tt st1' /\
    Bind Model.getTagName (IPtr (TStruct Sample.User) 0) Sample.boundMaps
      = Ret tt st2' /\
    BindType (binder (ses st1')) = BindType (binder (ses st2')) /\
    BindName (binder (ses st1')) = BindName (binder (ses st2')) /\
    BindFields (binder (ses st1')) = BindFields (binder (ses st2')).
Proof.
  apply (Bind_forgets_earlier_bind Model.getTagName (IPtr (TStruct Sample.User) 0)
           OBJECT_STRUCT Sample.st0 Sample.boundMaps).
  - intros t l l'. reflexivity.
  - reflexivity.
  - discriminate.
Defined.

(** ** What materialisation leaves alone *)

Lemma framed_ret {A} (a : A) : framed (ret a).
Proof. intros st. split; reflexivity. Qed.

Lemma framed_panic {A} (c : PanicCause) : framed (@panic A c).
Proof. intros st. split; reflexivity. Qed.

Lemma framed_bind {A B} (m : M A) (k : A -> M B) :
  framed m -> (forall a, framed (k a)) -> framed (bind m k).
Proof.
  intros Hm Hk st. unfold bind. specialize (Hm st).
  destruct (m st) as [a st1 | c st1]; cbn in *; [ | exact Hm].
  destruct Hm as [Hs Ht]. destruct (Hk a st1) as [Hs' Ht'].
  split; congruence.
Qed.

Lemma framed_getB : framed getB.
Proof. intros st. split; reflexivity. Qed.

Lemma framed_SetMapIndex (v : reflect.Value) (key : string) (val : Value) :
  framed (SetMapIndex v key val).
Proof.
  intros st. unfold SetMapIndex.
  destruct v as [ | [ | | | | | | | | ] l | | | ]; try (split; reflexivity).
  destruct (heap st !! l) as [[ | | ] | ]; split; reflexivity.
Qed.

Lemma framed_valueAt (v : reflect.Value) : framed (valueAt v).
Proof.
  intros st. unfold valueAt.
  destruct v as [ | [ | | | | | | | | ] l | | | ]; try (split; reflexivity).
  destruct (heap st !! l) as [[ | | ] | ]; split; reflexivity.
Qed.

Lemma framed_SetAppend (slice elem : reflect.Value) : framed (SetAppend slice elem).
Proof.
  unfold SetAppend. apply framed_bind; [apply framed_valueAt | ].
  intros x st.
  destruct slice as [ | [ | | | | | | | | ] l | | | ]; try (split; reflexivity).
  destruct (heap st !! l) as [[ | | ] | ]; split; reflexivity.
Qed.

Lemma framed_storeFields (l : loc) (idxs : list nat) (vals : list Value) :
  framed (storeFields l idxs vals).
Proof.
  intros st. unfold storeFields.
  destruct (heap st !! l) as [[ | | ] | ]; split; reflexivity.
Qed.

Lemma framed_setColumns (m : reflect.Value) (columns : list string) :
  forall values, framed (setColumns m columns values).
Proof.
  induction columns as [ | col columns IH]; intros [ | val values]; cbn;
    try apply framed_ret.
  apply framed_bind; [apply framed_SetMapIndex | intros _; apply IH].
Qed.

Lemma framed_scanTargets
    (strutForScan : Iface -> option (loc * list nat)) (u : Iface) :
  framed (scanTargets strutForScan u).
Proof.
  unfold scanTargets. destruct (strutForScan u);
    [apply framed_ret | apply framed_panic].
Qed.

Lemma framed_scanMapAll_loop (columns : list string) (pending : list RowItem) :
  forall rows values, framed (scanMapAll_loop pending rows columns values).
Proof.
  induction pending as [ | item rest IH]; intros rows values;
    cbn [scanMapAll_loop]; [apply framed_ret | ].
  cbv zeta. destruct (Scan _ _) as [stored e].
  apply framed_bind; [apply framed_getB | intros b].
  apply framed_bind; [apply framed_setColumns | intros _].
  apply framed_bind; [ | intros _; apply IH].
  destruct (BindType b); try apply framed_ret. apply framed_SetAppend.
Qed.

Lemma framed_scanAll_loop
    (strutForScan : Iface -> option (loc * list nat)) (pending : list RowItem) :
  forall rows, framed (scanAll_loop strutForScan pending rows).
Proof.
  induction pending as [ | item rest IH]; intros rows;
    cbn [scanAll_loop]; [apply framed_ret | ].
  cbv zeta.
  apply framed_bind; [apply framed_getB | intros b].
  apply framed_bind; [apply framed_scanTargets | intros fields].
  destruct (Scan _ _) as [stored [e | ]].
  - apply framed_bind; [apply framed_storeFields | intros _; apply framed_ret].
  - apply framed_bind; [apply framed_storeFields | intros _].
    apply framed_bind; [apply framed_SetAppend | intros _; apply IH].
Qed.

Lemma framed_scan
    (strutForScan : Iface -> option (loc * list nat)) (rows : Rows) :
  framed (scan strutForScan rows).
Proof.
  unfold scan. apply framed_bind; [apply framed_getB | intros b].
  destruct (BindType b).
  - apply framed_ret.
  - unfold scanRow. destruct (Next rows) as [more rows'].
    destruct more; cbn [negb].
    + apply framed_bind; [apply framed_scanTargets | intros fields].
      destruct (Scan _ _) as [stored [e | ]];
        (apply framed_bind; [apply framed_storeFields | intros _; apply framed_ret]).
    + destruct (Err rows'); apply framed_ret.
  - apply framed_scanAll_loop.
  - unfold scanMap, scanMapAll. destruct (Columns rows);
      [apply framed_scanMapAll_loop | apply framed_ret].
  - unfold scanMapAll. destruct (Columns rows);
      [apply framed_scanMapAll_loop | apply framed_ret].
Qed.

(** X7: materialisation changes the heap at most.  Under every shape, from
    every state and for every cursor, whether [scan] returns or panics, the
    session (binding, transaction handle, last identifier, statement log)
    and the history of database calls are as before. *)
Theorem scan_changes_heap_only
    (strutForScan : Iface -> option (loc * list nat)) (rows : Rows) (st : State) :
  ses (finalState (scan strutForScan rows st)) = ses st /\
  trace (finalState (scan strutForScan rows st)) = trace st.
Proof.
  exact (framed_scan strutForScan rows st).
Qed.

(** ** The shape of a table name has no materialisation *)

(** X8: after a table name was bound, [scan] refuses with the bind-value
    error: the cursor is not advanced and nothing changes. *)
Theorem scan_after_table_name_bind
    (getTagName : Iface -> list string)
    (strutForScan : Iface -> option (loc * list nat))
    (name : string) (rows : Rows) (st : State) :
  exists st1,
    Bind getTagName (IString name) st = Ret tt st1 /\
    scan strutForScan rows st1 = Ret (Some ErrBindValue, rows) st1.
Proof.
  open_state st. eexists. split; reflexivity.
Qed.

(** ** Materialisation of mappings, any rows *)

Lemma Next_nil (rows : Rows) :
  rs_pending rows = [] -> snd (Next rows) = drained rows.
Proof. intros H. unfold Next, drained. rewrite H. reflexivity. Qed.

Lemma Next_cons (rows : Rows) (item : RowItem) (rest : list RowItem) :
  rs_pending rows = item :: rest ->
  rs_pending (snd (Next rows)) = rest /\
  rs_current (snd (Next rows)) = Some item /\
  rs_columns (snd (Next rows)) = rs_columns rows /\
  rs_end (snd (Next rows)) = rs_end rows /\
  drained (snd (Next rows)) = drained rows.
Proof. intros H. unfold Next, drained. rewrite H. cbn. auto. Qed.

Lemma scanMapAll_loop_drains (r : loc) (columns : list string)
    (pending : list RowItem) :
  forall (rows : Rows) (values : list Value) (st : State),
    mapBound r st ->
    rs_pending rows = pending ->
    exists st',
      scanMapAll_loop pending rows columns values st
        = Ret (None, drained rows) st' /\
      mapBound r st'.
Proof.
  induction pending as [ | item rest IH]; intros rows values st Hb Hp.
  - exists st. cbn. unfold ret. rewrite (Next_nil rows Hp). auto.
  - destruct (Next_cons rows item rest Hp) as (Hp' & _ & _ & _ & Hd).
    cbn [scanMapAll_loop]. cbv zeta.
    destruct (Scan (snd (Next rows)) (length columns)) as [stored e].
    destruct Hb as (Hres & [m Hr] & Hshape).
    unfold bind at 1. unfold getB. rewrite Hres.
    unfold bind at 1. rewrite (setColumns_putColumns r columns _ st m Hr).
    set (m1 := putColumns columns (stored ++ drop (length stored) values) m).
    set (st1 := set_heap (<[r := OMap m1]> (heap st)) st).
    assert (Hr1 : heap st1 !! r = Some (OMap m1)) by apply lookup_insert_eq.
    rewrite <- Hd.
    destruct Hshape as [Hmap | (Hslice & elt & ls & xs & Hrs & Hne & Hls)].
    + rewrite Hmap. unfold bind at 1. unfold ret at 1.
      apply IH; [ | exact Hp'].
      split; [exact Hres | split; [eauto | left; exact Hmap]].
    + rewrite Hslice, Hrs. unfold bind at 1. unfold SetAppend, bind, valueAt.
      assert (Hls1 : heap st1 !! ls = Some (OSlice xs))
        by (subst st1; cbn; rewrite lookup_insert_ne by exact Hne; exact Hls).
      rewrite Hls1.
      apply IH; [ | exact Hp'].
      split; [exact Hres | split].
      * exists m1. cbn. rewrite lookup_insert_ne by congruence. exact Hr1.
      * right. split; [exact Hslice | ].
        exists elt, ls, (xs ++ [VMapRef r]).
        split; [exact Hrs | split; [exact Hne | ]]. cbn. apply lookup_insert_eq.
Qed.

(** X9: under the two mapping shapes the only error materialisation can
    return is the one [rows.Columns()] gives, and then no row is read.  Once
    the columns are known, every row is consumed and no error is returned,
    whatever [Scan] answers and even when the cursor stopped on an error,
    which is left unread in [rows.Err()]. *)
Theorem scan_mappings_only_error
    (strutForScan : Iface -> option (loc * list nat))
    (r : loc) (rows : Rows) (st : State) :
  mapBound r st ->
  match Columns rows with
  | inr err => scan strutForScan rows st = Ret (Some err, rows) st
  | inl _ =>
      exists st', scan strutForScan rows st = Ret (None, drained rows) st' /\
                  Err (drained rows) = rs_end rows
  end.
Proof.
  intros Hb.
  assert (Hrun : scan strutForScan rows st
                 = scanMapAll rows (BindResultSlice (binder (ses st))) st).
  { unfold scan, bind, getB.
    destruct Hb as (_ & _ & [-> | [-> _]]); reflexivity. }
  rewrite Hrun. unfold scanMapAll.
  destruct (Columns rows) as [columns | err]; [ | reflexivity].
  destruct (scanMapAll_loop_drains r columns (rs_pending rows) rows
              (replicate (length columns) VNil) st Hb eq_refl) as (st' & Hst' & _).
  exists st'. split; [exact Hst' | reflexivity].
Qed.

Lemma scan_mappings_only_error_witness :
  exists st',
    scan Model.strutForScan Demo.cutCursor Sample.boundMaps
      = Ret (None, drained Demo.cutCursor) st' /\
    Err (drained Demo.cutCursor) = Some (ErrDriver 4).
Proof.
  apply (scan_mappings_only_error Model.strutForScan 4 Demo.cutCursor
           Sample.boundMaps).
  split; [evaluate | split].
  - eexists. evaluate.
  - right. split; [evaluate | ].
    exists TMap, 2, []. split; [evaluate | split; [lia | evaluate]].
Defined.

(** ** Materialisation of a single mapping *)

Lemma mapStore_ne (col key : string) (val : Value) (m : gmap string Value) :
  col <> key -> mapStore col val m !! key = m !! key.
Proof.
  intros Hne. destruct val; cbn;
    first [now apply lookup_delete_ne | now apply lookup_insert_ne].
Qed.

Lemma mapStore_eq (col : string) (val : Value) (m : gmap string Value) :
  mapStore col (decode val) m !! col = entryOf val.
Proof.
  destruct val; cbn;
    first [apply lookup_delete_eq | apply lookup_insert_eq].
Qed.

Lemma putColumns_other (columns : list string) (key : string) :
  key ∉ columns ->
  forall (values : list Value) (m : gmap string Value),
    putColumns columns values m !! key = m !! key.
Proof.
  induction columns as [ | col columns IH]; intros Hnot [ | val values] m; cbn;
    try reflexivity.
  apply not_elem_of_cons in Hnot as [Hne Hnot].
  rewrite (IH Hnot). apply mapStore_ne. congruence.
Qed.

Lemma putColumns_lookup (columns : list string) :
  forall (values : list Value) (m : gmap string Value) (k : nat) (c : string)
         (v : Value),
    NoDup columns ->
    columns !! k = Some c -> values !! k = Some v ->
    putColumns columns values m !! c = entryOf v.
Proof.
  induction columns as [ | col columns IH]; intros values m k c v Hnd Hc Hv.
  - discriminate Hc.
  - apply NoDup_cons in Hnd as [Hcol Hnd].
    destruct values as [ | val values]; [destruct k; discriminate Hv | ].
    destruct k as [ | k]; cbn in Hc, Hv |- *.
    + injection Hc as ->. injection Hv as ->.
      rewrite (putColumns_other columns c Hcol). apply mapStore_eq.
    + exact (IH values _ k c v Hnd Hc Hv).
Qed.

Lemma putColumns_app (columns : list string) :
  forall (values extra : list Value) (m : gmap string Value),
    length values = length columns ->
    putColumns columns (values ++ extra) m = putColumns columns values m.
Proof.
  induction columns as [ | col columns IH]; intros [ | val values] extra m Hlen;
    try discriminate Hlen.
  - destruct extra; reflexivity.
  - cbn. apply IH. now injection Hlen.
Qed.

Lemma mapAfter_other (columns : list string) (key : string)
    (items : list RowItem) :
  key ∉ columns ->
  forall m, mapAfter columns items m !! key = m !! key.
Proof.
  intros Hnot. induction items as [ | item items IH]; intros m; cbn;
    [reflexivity | ].
  unfold mapAfter in IH. rewrite IH. now apply putColumns_other.
Qed.

Lemma mapAfter_snoc (columns : list string) (init : list RowItem)
    (last : RowItem) (m : gmap string Value) :
  mapAfter columns (init ++ [last]) m
  = putColumns columns (cells last) (mapAfter columns init m).
Proof. unfold mapAfter. now rewrite foldl_app. Qed.

Lemma scanMapAll_loop_single (r : loc) (columns : list string)
    (pending : list RowItem) :
  forall (rows : Rows) (values : list Value) (st : State)
         (m : gmap string Value),
    BindType (binder (ses st)) = OBJECT_MAP ->
    BindResult (binder (ses st)) = reflect.VAddr TMap r ->
    heap st !! r = Some (OMap m) ->
    rs_pending rows = pending ->
    Forall (goodRow (length columns)) pending ->
    scanMapAll_loop pending rows columns values st
    = Ret (None, drained rows)
          (set_heap (<[r := OMap (mapAfter columns pending m)]> (heap st)) st).
Proof.
  induction pending as [ | item rest IH];
    intros rows values st m Hshape Hres Hr Hp Hgood.
  - cbn. unfold ret. rewrite (Next_nil rows Hp).
    rewrite (insert_id _ _ _ Hr). now rewrite set_heap_same.
  - destruct (Next_cons rows item rest Hp) as (Hp' & Hcur & _ & _ & Hd).
    apply Forall_cons in Hgood as [[Hbad Hlen] Hgood].
    cbn [scanMapAll_loop]. cbv zeta.
    unfold Scan. rewrite Hcur, Hbad.
    rewrite decide_True by (symmetry; exact Hlen).
    unfold bind at 1. unfold getB. rewrite Hres.
    unfold bind at 1. rewrite (setColumns_putColumns r columns _ st m Hr).
    rewrite (putColumns_app columns _ _ m Hlen).
    rewrite Hshape. unfold bind at 1. unfold ret at 1.
    rewrite (IH (snd (Next rows)) _ _ (putColumns columns (cells item) m));
      try assumption; [ | apply lookup_insert_eq].
    rewrite Hd. cbn. unfold set_heap. cbn. now rewrite insert_insert_eq.
Qed.

(** X10: under the Mapping shape every row is written into the one bound
    map, so the last row wins: each column holds the value of the last row,
    binary values as text and all others as the driver gave them, and a
    column that is NULL in the last row has no entry.  Entries of the map
    under other keys are kept.  With no row at all the map is left as it is
    and no error is returned. *)
Theorem scan_map_last_row_wins
    (strutForScan : Iface -> option (loc * list nat))
    (r : loc) (rows : Rows) (columns : list string) (st : State)
    (m : gmap string Value) :
  BindType (binder (ses st)) = OBJECT_MAP ->
  BindResult (binder (ses st)) = reflect.VAddr TMap r ->
  heap st !! r = Some (OMap m) ->
  Columns rows = inl columns ->
  Forall (goodRow (length columns)) (rs_pending rows) ->
  exists m',
    scan strutForScan rows st
      = Ret (None, drained rows) (set_heap (<[r := OMap m']> (heap st)) st) /\
    (forall key, key ∉ columns -> m' !! key = m !! key) /\
    (rs_pending rows = [] -> m' = m) /\
    (forall init last k c v,
       rs_pending rows = init ++ [last] -> NoDup columns ->
       columns !! k = Some c -> cells last !! k = Some v ->
       m' !! c = entryOf v) /\
    entryOf VNil = None /\
    (forall b, entryOf (VBytes b) = Some (VStr b)) /\
    (forall v, v <> VNil -> (forall b, v <> VBytes b) -> entryOf v = Some v).
Proof.
  intros Hshape Hres Hr Hcols Hgood.
  exists (mapAfter columns (rs_pending rows) m).
  split; [ | split; [ | split; [ | split; [ | split; [ | split]]]]].
  - unfold scan, bind, getB. rewrite Hshape. unfold scanMap, scanMapAll.
    rewrite Hcols.
    now apply (scanMapAll_loop_single r columns (rs_pending rows) rows _ st m).
  - intros key Hkey. now apply mapAfter_other.
  - intros ->. reflexivity.
  - intros init last k c v -> Hnd Hc Hv. rewrite mapAfter_snoc.
    exact (putColumns_lookup columns _ _ k c v Hnd Hc Hv).
  - reflexivity.
  - reflexivity.
  - intros [ | | | | b | | ] Hnil Hv; try reflexivity;
      [now destruct Hnil | now destruct (Hv b)].
Qed.

Lemma scan_map_last_row_wins_witness :
  exists m',
    scan Model.strutForScan (Sample.cursor [Sample.ann; Demo.nameless])
      Demo.boundMap
      = Ret (None, drained (Sample.cursor [Sample.ann; Demo.nameless]))
            (set_heap (<[1 := OMap m']> (heap Demo.boundMap)) Demo.boundMap) /\
    m' !! "id" = Some (VInt 3) /\ m' !! "name" = None.
Proof.
  destruct (scan_map_last_row_wins Model.strutForScan 1
              (Sample.cursor [Sample.ann; Demo.nameless]) ["id"; "name"]
              Demo.boundMap ∅)
    as (m' & Hrun & _ & _ & Hlast & _).
  - reflexivity.
  - reflexivity.
  - reflexivity.
  - reflexivity.
  - repeat constructor.
  - exists m'. split; [exact Hrun | split].
    + apply (Hlast [Sample.ann] Demo.nameless 0 "id" (VInt 3) eq_refl);
        [ | reflexivity | reflexivity].
      apply (bool_decide_unpack (NoDup ["id"; "name"])). evaluate.
    + apply (Hlast [Sample.ann] Demo.nameless 1 "name" VNil eq_refl);
        [ | reflexivity | reflexivity].
      apply (bool_decide_unpack (NoDup ["id"; "name"])). evaluate.
Defined.

(** ** Materialisation of a slice of records *)

Section RecordList.
Variable strutForScan : Iface -> option (loc * list nat).
Variables r ls : loc.
Variable targets : list nat.

Lemma scanAll_loop_good (tail good : list RowItem) :
  forall (rows : Rows) (st : State) (fs xs : list Value),
    recordsBound strutForScan r ls targets st ->
    heap st !! r = Some (OStruct fs) ->
    heap st !! ls = Some (OSlice xs) ->
    rs_pending rows = good ++ tail ->
    Forall (goodRow (length targets)) good ->
    exists rows1 st1,
      scanAll_loop strutForScan (good ++ tail) rows st
        = scanAll_loop strutForScan tail rows1 st1 /\
      rs_pending rows1 = tail /\
      drained rows1 = drained rows /\
      ses st1 = ses st /\
      heap st1 !! r = Some (OStruct (templateAfter targets good fs)) /\
      heap st1 !! ls = Some (OSlice (xs ++ recordsOf targets good fs)) /\
      (forall k, k <> r -> k <> ls -> heap st1 !! k = heap st !! k).
Proof.
  induction good as [ | item good IH]; intros rows st fs xs Hb Hr Hls Hp Hgood.
  - exists rows, st. cbn. rewrite app_nil_r. auto 10.
  - destruct (Next_cons rows item (good ++ tail) Hp) as (Hp' & Hcur & _ & _ & Hd).
    apply Forall_cons in Hgood as [[Hbad Hlen] Hgood].
    pose proof Hb as (Hshape & Hne & d & elt & Hres & Htargets & Hslice).
    set (fs' := storeAt targets (cells item) fs).
    set (st2 := set_heap (<[ls := OSlice (xs ++ [VStruct fs'])]>
                            (<[r := OStruct fs']> (heap st))) st).
    assert (Hb2 : recordsBound strutForScan r ls targets st2) by exact Hb.
    assert (Hr2 : heap st2 !! r = Some (OStruct fs')).
    { subst st2. cbn. rewrite lookup_insert_ne by congruence.
      apply lookup_insert_eq. }
    assert (Hls2 : heap st2 !! ls = Some (OSlice (xs ++ [VStruct fs'])))
      by apply lookup_insert_eq.
    destruct (IH (snd (Next rows)) st2 fs' (xs ++ [VStruct fs'])
                 Hb2 Hr2 Hls2 Hp' Hgood)
      as (rows1 & st1 & Hrun & Hp1 & Hd1 & Hs1 & Hr1 & Hls1 & Hother).
    + exists rows1, st1.
      split; [ | split; [exact Hp1 | split; [congruence | split; [exact Hs1 | ]]]].
      * rewrite <- Hrun. cbn [scanAll_loop app]. cbv zeta.
        unfold bind at 1. unfold getB. rewrite Hres, Hslice.
        cbn [Interface Elem Indirect].
        unfold scanTargets. rewrite Htargets.
        unfold bind at 1. unfold ret at 1. cbn [fst snd].
        unfold Scan. rewrite Hcur, Hbad.
        rewrite decide_True by (symmetry; exact Hlen).
        unfold bind at 1. unfold storeFields. rewrite Hr.
        unfold bind at 1. unfold SetAppend, bind, valueAt. cbn [heap set_heap].
        rewrite lookup_insert_eq. cbn [heap set_heap].
        rewrite lookup_insert_ne by exact Hne. rewrite Hls.
        reflexivity.
      * split; [exact Hr1 | split].
        -- rewrite Hls1. cbn [recordsOf]. fold fs'. now rewrite <- app_assoc.
        -- intros k Hkr Hkl. rewrite (Hother k Hkr Hkl). subst st2. cbn.
           rewrite lookup_insert_ne by congruence.
           apply lookup_insert_ne. congruence.
Qed.

Lemma recordsOf_length (items : list RowItem) :
  forall fs, length (recordsOf targets items fs) = length items.
Proof.
  induction items as [ | item items IH]; intros fs; cbn; [reflexivity | ].
  now rewrite IH.
Qed.

Lemma recordsOf_lookup (items : list RowItem) :
  forall (fs : list Value) (k : nat) (item : RowItem),
    NoDup targets ->
    items !! k = Some item ->
    exists fs_k,
      recordsOf targets items fs !! k = Some (VStruct fs_k) /\
      length fs_k = length fs /\
      forall j i v,
        targets !! j = Some i -> cells item !! j = Some v ->
        (i < length fs)%nat -> fs_k !! i = Some v.
Proof.
  induction items as [ | first items IH]; intros fs k item Hnd Hk.
  - discriminate Hk.
  - destruct k as [ | k]; cbn in Hk |- *.
    + injection Hk as ->. exists (storeAt targets (cells item) fs).
      split; [reflexivity | split; [apply storeAt_length | ]].
      intros j i v Hj Hv Hi. exact (storeAt_lookup targets _ _ j i v Hnd Hj Hv Hi).
    + destruct (IH (storeAt targets (cells first) fs) k item Hnd Hk)
        as (fs_k & Hl & Hlen & Hpos).
      exists fs_k. rewrite storeAt_length in Hlen.
      split; [exact Hl | split; [exact Hlen | ]].
      intros j i v Hj Hv Hi. apply (Hpos j i v Hj Hv).
      now rewrite storeAt_length.
Qed.

(** X11: under the RecordList shape, when [Scan] accepts every row, one
    record is appended per row behind what the slice already held, in the
    order of arrival; the record of row [k] holds, in the field of the [j]-th
    target, the [j]-th value of that row; and the result is the error the
    cursor stopped on, if any.  The records are values: each keeps its own
    row. *)
Theorem scan_records_appends_rows
    (rows : Rows) (st : State) (fs xs : list Value) :
  recordsBound strutForScan r ls targets st ->
  heap st !! r = Some (OStruct fs) ->
  heap st !! ls = Some (OSlice xs) ->
  Forall (goodRow (length targets)) (rs_pending rows) ->
  exists st' appended,
    scan strutForScan rows st = Ret (rs_end rows, drained rows) st' /\
    heap st' !! ls = Some (OSlice (xs ++ appended)) /\
    length appended = length (rs_pending rows) /\
    (NoDup targets ->
     forall k item,
       rs_pending rows !! k = Some item ->
       exists fs_k,
         appended !! k = Some (VStruct fs_k) /\
         length fs_k = length fs /\
         forall j i v,
           targets !! j = Some i -> cells item !! j = Some v ->
           (i < length fs)%nat -> fs_k !! i = Some v).
Proof.
  intros Hb Hr Hls Hgood.
  destruct (scanAll_loop_good [] (rs_pending rows) rows st fs xs Hb Hr Hls)
    as (rows1 & st1 & Hrun & Hp1 & Hd1 & _ & _ & Hls1 & _);
    [now rewrite app_nil_r | exact Hgood | ].
  rewrite app_nil_r in Hrun.
  exists st1, (recordsOf targets (rs_pending rows) fs).
  split; [ | split; [exact Hls1 | split; [apply recordsOf_length | ]]].
  - unfold scan, bind, getB. destruct Hb as (-> & _). unfold scanAll.
    rewrite Hrun. cbn. unfold ret. rewrite (Next_nil rows1 Hp1), Hd1.
    reflexivity.
  - intros Hnd k item Hk. now apply recordsOf_lookup.
Qed.

(** X12: under the RecordList shape the first row [Scan] refuses stops the
    materialisation: its scan error is returned, the records of the rows
    before it stay appended, nothing is appended for the refused row, and the
    rows behind it are left on the cursor. *)
Theorem scan_records_stops_at_bad_row
    (rows : Rows) (st : State) (fs xs : list Value)
    (good later : list RowItem) (bad : RowItem) :
  recordsBound strutForScan r ls targets st ->
  heap st !! r = Some (OStruct fs) ->
  heap st !! ls = Some (OSlice xs) ->
  rs_pending rows = good ++ bad :: later ->
  Forall (goodRow (length targets)) good ->
  ~ goodRow (length targets) bad ->
  exists f rows' st',
    scan strutForScan rows st = Ret (Some (ErrScan f), rows') st' /\
    rs_pending rows' = later /\
    heap st' !! ls = Some (OSlice (xs ++ recordsOf targets good fs)) /\
    length (recordsOf targets good fs) = length good.
Proof.
  intros Hb Hr Hls Hp Hgood Hbad.
  destruct (scanAll_loop_good (bad :: later) good rows st fs xs Hb Hr Hls Hp Hgood)
    as (rows1 & st1 & Hrun & Hp1 & _ & Hs1 & Hr1 & Hls1 & _).
  destruct (Next_cons rows1 bad later Hp1) as (Hp' & Hcur & _).
  pose proof Hb as (Hshape & Hne & d & elt & Hres & Htargets & Hslice).
  assert (Hstep : exists f stored,
             Scan (snd (Next rows1)) (length targets)
             = (stored, Some (ErrScan f))).
  { unfold Scan. rewrite Hcur.
    destruct (decide (length targets = length (cells bad))) as [Hlen | Hlen];
      [ | eauto].
    destruct (bad_col bad) as [c | ] eqn:Hc; [eauto | ].
    destruct Hbad. split; [exact Hc | now symmetry]. }
  destruct Hstep as (f & stored & Hscan).
  exists f, (snd (Next rows1)).
  exists (set_heap (<[r := OStruct (storeAt targets stored
                                      (templateAfter targets good fs))]>
                      (heap st1)) st1).
  split; [ | split; [exact Hp' | split; [ | apply recordsOf_length]]].
  - unfold scan, bind, getB. rewrite Hshape. unfold scanAll. rewrite Hp, Hrun.
    cbn [scanAll_loop]. cbv zeta.
    unfold bind at 1. unfold getB. rewrite Hs1, Hres.
    cbn [Interface]. unfold scanTargets. rewrite Htargets.
    unfold bind at 1. unfold ret at 1. cbn [fst snd]. rewrite Hscan.
    unfold bind at 1. unfold storeFields. rewrite Hr1. reflexivity.
  - cbn. rewrite lookup_insert_ne by exact Hne. exact Hls1.
Qed.
End RecordList.

Lemma scan_records_appends_rows_witness :
  exists st' appended,
    scan Model.strutForScan (Sample.cursor [Sample.ann; Sample.bob])
      Sample.boundUsers
      = Ret (None, drained (Sample.cursor [Sample.ann; Sample.bob])) st' /\
    heap st' !! 3 = Some (OSlice ([] ++ appended)) /\
    length appended = 2.
Proof.
  destruct (scan_records_appends_rows Model.strutForScan 4 3 [0; 2]
              (Sample.cursor [Sample.ann; Sample.bob]) Sample.boundUsers
              [VNil; VNil; VNil] [])
    as (st' & appended & Hrun & Hslice & Hlen & _).
  - split; [evaluate | split; [lia | ]].
    exists Sample.User, (TStruct Sample.User).
    split; [evaluate | split; [reflexivity | evaluate]].
  - evaluate.
  - evaluate.
  - repeat constructor.
  - exists st', appended. auto.
Defined.

Lemma scan_records_stops_at_bad_row_witness :
  exists f rows' st',
    scan Model.strutForScan
      (Sample.cursor [Sample.ann; Sample.broken; Sample.bob]) Sample.boundUsers
      = Ret (Some (ErrScan f), rows') st' /\
    rs_pending rows' = [Sample.bob] /\
    heap st' !! 3
      = Some (OSlice ([] ++ recordsOf [0; 2] [Sample.ann] [VNil; VNil; VNil])) /\
    length (recordsOf [0; 2] [Sample.ann] [VNil; VNil; VNil]) = 1.
Proof.
  apply (scan_records_stops_at_bad_row Model.strutForScan 4 3 [0; 2]
           (Sample.cursor [Sample.ann; Sample.broken; Sample.bob])
           Sample.boundUsers [VNil; VNil; VNil] []
           [Sample.ann] [Sample.bob] Sample.broken).
  - split; [evaluate | split; [lia | ]].
    exists Sample.User, (TStruct Sample.User).
    split; [evaluate | split; [reflexivity | evaluate]].
  - evaluate.
  - evaluate.
  - reflexivity.
  - repeat constructor.
  - intros [Hbad _]. discriminate Hbad.
Defined.

(** ** Writes, path by path *)

(** X13: the calls of a write.  For a statement of at least six bytes that
    is not a select, [Execute] prepares on the transaction handle when the
    session has one and on the write connection otherwise.  It executes only
    what was prepared, and it closes every statement it prepared, as its last
    call, whether the execution succeeded or not. *)
Theorem Execute_calls
    (drv : Driver) (sqlstring : string) (args : list Value) (st : State) :
  (6 <= String.length sqlstring)%nat ->
  operTypeOf sqlstring <> "select" ->
  let c := writeConn st in
  (c = match tx (ses st) with Some t => ViaTx t | None => MasterDB end) /\
  trace (finalState (Execute drv sqlstring args st))
  = trace st ++
    match db_Prepare drv (trace st) c sqlstring with
    | inr _ => [EvPrepare c sqlstring]
    | inl stmt => [EvPrepare c sqlstring; EvExec stmt args; EvStmtClose stmt]
    end.
Proof.
  intros Hlen Hsel c. split; [reflexivity | ].
  split_Execute drv sqlstring args st. fold c.
  apply Nat.leb_le in Hlen. rewrite Hlen.
  apply String.eqb_neq in Hsel. rewrite Hsel.
  destruct (db_Prepare drv (trace st) c sqlstring) as [stmt | err];
    [ | cbn; now rewrite Htr].
  destruct (stmt_Exec drv (trace st ++ [EvPrepare c sqlstring]) stmt args)
    as [result | errs]; cbn.
  - destruct (String.eqb (operTypeOf sqlstring) "insert");
      [destruct (res_LastInsertId result) as [id [e | ]] | ];
      cbn; rewrite Htr, <- !app_assoc; reflexivity.
  - rewrite Htr, <- !app_assoc. reflexivity.
Qed.

Lemma Execute_calls_witness :
  trace (finalState (Execute Sample.driver "update users set name = ?"
                       [VStr "ann"] (set_tx (Some 8) Sample.st0)))
  = [EvPrepare (ViaTx 8) "update users set name = ?";
     EvExec 7 [VStr "ann"]; EvStmtClose 7].
Proof.
  apply (proj2 (Execute_calls Sample.driver "update users set name = ?"
                  [VStr "ann"] (set_tx (Some 8) Sample.st0)
                  ltac:(cbn; lia) ltac:(discriminate))).
Defined.

(** X14: errors of the write connection.  An error from preparing, or from
    executing, is returned as it is with a count of zero, and the last
    generated identifier keeps its value, also for an insert. *)
Theorem Execute_driver_errors
    (drv : Driver) (sqlstring : string) (args : list Value) (st : State) :
  (6 <= String.length sqlstring)%nat ->
  operTypeOf sqlstring <> "select" ->
  let c := writeConn st in
  (forall e, db_Prepare drv (trace st) c sqlstring = inr e ->
     exists st', Execute drv sqlstring args st = Ret (0%Z, Some e) st' /\
                 lastInsertId (ses st') = lastInsertId (ses st)) /\
  (forall stmt e,
     db_Prepare drv (trace st) c sqlstring = inl stmt ->
     stmt_Exec drv (trace st ++ [EvPrepare c sqlstring]) stmt args = inr e ->
     exists st', Execute drv sqlstring args st = Ret (0%Z, Some e) st' /\
                 lastInsertId (ses st') = lastInsertId (ses st)).
Proof.
  intros Hlen Hsel c.
  apply Nat.leb_le in Hlen. apply String.eqb_neq in Hsel.
  split.
  - intros e Hprep. split_Execute drv sqlstring args st. fold c.
    rewrite Hlen, Hsel, Hprep. eexists. split; [reflexivity | exact Hid].
  - intros stmt e Hprep Hexec. split_Execute drv sqlstring args st. fold c.
    rewrite Hlen, Hsel, Hprep, Hexec. eexists. split; [reflexivity | exact Hid].
Qed.

Lemma Execute_driver_errors_witness :
  exists st',
    Execute (mkDriver (fun text _ => text) (fun _ => inl 1) (fun _ _ => None)
               (fun _ _ => None) (fun _ _ _ => inr (ErrDriver 6))
               (fun _ _ _ => inr (ErrDriver 6)))
      "insert into users values (?)" [VInt 1] Sample.st0
    = Ret (0%Z, Some (ErrDriver 6)) st' /\
    lastInsertId (ses st') = lastInsertId (ses Sample.st0).
Proof.
  apply (proj1 (Execute_driver_errors
                  (mkDriver (fun text _ => text) (fun _ => inl 1)
                     (fun _ _ => None) (fun _ _ => None)
                     (fun _ _ _ => inr (ErrDriver 6))
                     (fun _ _ _ => inr (ErrDriver 6)))
                  "insert into users values (?)" [VInt 1] Sample.st0
                  ltac:(cbn; lia) ltac:(discriminate))).
  reflexivity.
Defined.

(** X15: the statement text is recorded before anything else.  On every
    path of [Execute], also when it refuses a select, when the database
    fails and when it panics on a short text, the formatted statement is the
    last statement of the session afterwards, and it has been added to the
    statement log exactly when query logging is on. *)
Theorem Execute_records_statement
    (drv : Driver) (sqlstring : string) (args : list Value) (st : State) :
  let st' := finalState (Execute drv sqlstring args st) in
  LastInsertSql st' = Ret (Sprintf drv sqlstring args) st' /\
  sqlLogs (ses st')
  = if IfEnableQueryLog (ses st)
    then sqlLogs (ses st) ++ [Sprintf drv sqlstring args]
    else sqlLogs (ses st).
Proof.
  cbv zeta. unfold LastInsertSql. split_Execute drv sqlstring args st.
  destruct (6 <=? String.length sqlstring)%nat; [ | cbn; rewrite ?Hsql; auto].
  destruct (String.eqb (operTypeOf sqlstring) "select"); [cbn; rewrite ?Hsql; auto | ].
  destruct (db_Prepare drv (trace st) (writeConn st) sqlstring)
    as [stmt | err]; [ | cbn; rewrite ?Hsql; auto].
  destruct (stmt_Exec drv (trace st ++ [EvPrepare (writeConn st) sqlstring])
              stmt args) as [result | errs]; [ | cbn; rewrite ?Hsql; auto].
  destruct (String.eqb (operTypeOf sqlstring) "insert");
    [destruct (res_LastInsertId result) as [id [e | ]] | ]; cbn; rewrite ?Hsql; auto.
Qed.

(** X16: what a write leaves alone.  On every path [Execute] leaves the
    binding, the transaction handle, the logging switch and the heap as they
    were, and the last generated identifier can differ afterwards only if
    the keyword of the statement is insert. *)
Theorem Execute_frame
    (drv : Driver) (sqlstring : string) (args : list Value) (st : State) :
  let st' := finalState (Execute drv sqlstring args st) in
  binder (ses st') = binder (ses st) /\
  tx (ses st') = tx (ses st) /\
  IfEnableQueryLog (ses st') = IfEnableQueryLog (ses st) /\
  heap st' = heap st /\
  (lastInsertId (ses st') <> lastInsertId (ses st) ->
   operTypeOf sqlstring = "insert").
Proof.
  cbv zeta. split_Execute drv sqlstring args st.
  destruct (6 <=? String.length sqlstring)%nat;
    [ | cbn; repeat split; auto; congruence].
  destruct (String.eqb (operTypeOf sqlstring) "select");
    [cbn; repeat split; auto; congruence | ].
  destruct (db_Prepare drv (trace st) (writeConn st) sqlstring)
    as [stmt | err]; [ | cbn; repeat split; auto; congruence].
  destruct (stmt_Exec drv _ stmt args) as [result | errs];
    [ | cbn; repeat split; auto; congruence].
  destruct (String.eqb (operTypeOf sqlstring) "insert") eqn:Hins;
    [apply String.eqb_eq in Hins;
     destruct (res_LastInsertId result) as [id [e | ]] | ];
    cbn; repeat split; auto; congruence.
Qed.

Lemma Execute_frame_witness :
  operTypeOf "INSERT INTO users(name) VALUES(?)" = "insert".
Proof.
  apply (proj2 (proj2 (proj2 (proj2
           (Execute_frame Sample.driver "INSERT INTO users(name) VALUES(?)"
              [VStr "ann"] Sample.st0))))).
  cbn. discriminate.
Defined.

(** X17: an insert whose count of affected rows cannot be read.  The
    statement was executed and its generated identifier is recorded, yet
    [Execute] returns the error of [RowsAffected], with the count the driver
    gave beside it. *)
Theorem Execute_count_error
    (drv : Driver) (sqlstring : string) (args : list Value) (st : State)
    (stmt : Stmt) (result : Result) (id n : Z) (e : Error) :
  (6 <= String.length sqlstring)%nat ->
  operTypeOf sqlstring = "insert" ->
  db_Prepare drv (trace st) (writeConn st) sqlstring = inl stmt ->
  stmt_Exec drv (trace st ++ [EvPrepare (writeConn st) sqlstring]) stmt args
    = inl result ->
  res_LastInsertId result = (id, None) ->
  res_RowsAffected result = (n, Some e) ->
  exists st',
    Execute drv sqlstring args st = Ret (n, Some e) st' /\
    LastInsertId st' = Ret id st'.
Proof.
  intros Hlen Hins Hprep Hexec Hlast Hrows.
  apply Nat.leb_le in Hlen.
  split_Execute drv sqlstring args st.
  rewrite Hlen, Hins, Hprep, Hexec, Hlast, Hrows. cbn.
  eexists. split; reflexivity.
Qed.

Lemma Execute_count_error_witness :
  exists st',
    Execute Demo.driverNoCount "INSERT INTO users(name) VALUES(?)" [VStr "ann"]
      Sample.st0
    = Ret (0%Z, Some (ErrDriver 2)) st' /\
    LastInsertId st' = Ret 42%Z st'.
Proof.
  apply (Execute_count_error Demo.driverNoCount
           "INSERT INTO users(name) VALUES(?)" [VStr "ann"] Sample.st0
           7 (mkResult (42%Z, None) (0%Z, Some (ErrDriver 2))) 42 0 (ErrDriver 2));
    try reflexivity.
  cbn. lia.
Defined.

(** ** Transactions and what runs inside them *)

Lemma Transaction_loop_clears_handle (drv : Driver) (closers : list Closer) :
  forall st r st',
    Transaction_loop drv closers st = Ret r st' -> tx (ses st') = None.
Proof.
  induction closers as [ | closer rest IH]; intros st r st'; cbn.
  - unfold Commit. destruct (tx (ses st)); [ | discriminate].
    intros [= _ <-]. reflexivity.
  - unfold bind at 1. destruct (closer st) as [[e | ] st1 | c st1];
      [ | apply IH | discriminate].
    unfold bind, Rollback, ret. destruct (tx (ses st1)); [ | discriminate].
    intros [= _ <-]. reflexivity.
Qed.

(** X18: whenever [Transaction] returns, the session holds no transaction
    handle: not after a failed begin, not after a rollback, not after a
    commit, whether or not the commit or the rollback succeeded and whatever
    the closers did to the session. *)
Theorem Transaction_leaves_no_handle
    (drv : Driver) (closers : list Closer) (st : State)
    (r : option Error) (st' : State) :
  Transaction drv closers st = Ret r st' -> tx (ses st') = None.
Proof.
  rewrite Transaction_begin.
  destruct (db_Begin drv (trace st)) as [t | e].
  - apply Transaction_loop_clears_handle.
  - intros [= _ <-]. reflexivity.
Qed.

Lemma Transaction_leaves_no_handle_witness :
  tx (ses (finalState
             (Transaction Sample.driver
                [Sample.note "a"; Sample.failing (ErrDriver 5)]
                (set_tx (Some 8) Sample.st0)))) = None.
Proof.
  apply (Transaction_leaves_no_handle Sample.driver
           [Sample.note "a"; Sample.failing (ErrDriver 5)]
           (set_tx (Some 8) Sample.st0) (Some (ErrDriver 5))).
  reflexivity.
Defined.

(** X19: a write made by a step of a transaction goes through the handle
    that [Begin] returned.  For a single step that executes one statement
    (at least six bytes, not a select), the calls are: begin, prepare on the
    handle, what the write does next, and last a commit on the handle if the
    write succeeded or a rollback on it if the write returned an error; the
    error of the write, or else the result of the commit, is returned. *)
Theorem Transaction_write_uses_handle
    (drv : Driver) (sqlstring : string) (args : list Value) (st : State)
    (t : Tx) :
  db_Begin drv (trace st) = inl t ->
  (6 <= String.length sqlstring)%nat ->
  operTypeOf sqlstring <> "select" ->
  exists n e st1 r st' mid,
    Execute drv sqlstring args (set_tx (Some t) (log_call EvBegin st))
      = Ret (n, e) st1 /\
    Transaction drv [executeStep drv sqlstring args] st = Ret r st' /\
    trace st'
      = trace st ++ EvBegin :: EvPrepare (ViaTx t) sqlstring :: mid ++
        [match e with
         | Some _ => EvRollback (Some t)
         | None => EvCommit (Some t)
         end] /\
    (forall x, e = Some x -> r = Some x) /\
    (e = None -> r = tx_Commit drv (trace st1) (Some t)).
Proof.
  intros Hbegin Hlen Hsel.
  apply Nat.leb_le in Hlen. apply String.eqb_neq in Hsel.
  set (st0 := set_tx (Some t) (log_call EvBegin st)).
  rewrite Transaction_begin, Hbegin. fold st0.
  cbn [Transaction_loop]. unfold executeStep, bind.
  rewrite (Execute_paths drv sqlstring args st0). cbv zeta.
  destruct (recordSql_recorded drv sqlstring args st0)
    as (_ & Htr & _ & _ & Htx & _).
  change (writeConn st0) with (ViaTx t).
  change (trace st0) with (trace st ++ [EvBegin]) in *.
  rewrite Hlen, Hsel.
  assert (Htr' : trace (recorded drv sqlstring args st0) = trace st ++ [EvBegin])
    by exact Htr.
  assert (Htx' : tx (ses (recorded drv sqlstring args st0)) = Some t)
    by exact Htx.
  clear Htr Htx.
  destruct (db_Prepare drv (trace st ++ [EvBegin]) (ViaTx t) sqlstring)
    as [stmt | err].
  - destruct (stmt_Exec drv _ stmt args) as [result | errs].
    + destruct (res_RowsAffected result) as [n e] eqn:Hrows.
      exists n, e.
      set (final := log_call (EvStmtClose stmt) _).
      exists final.
      assert (Hf : trace final
                   = trace st ++ [EvBegin; EvPrepare (ViaTx t) sqlstring;
                                  EvExec stmt args; EvStmtClose stmt] /\
                   tx (ses final) = Some t).
      { subst final.
        destruct (String.eqb (operTypeOf sqlstring) "insert");
          [destruct (res_LastInsertId result) as [id [x | ]] | ];
          cbn; rewrite Htr', Htx', <- !app_assoc; split; reflexivity. }
      destruct Hf as [Hft Hftx]. clearbody final.
      destruct e as [x | ]; cbn; unfold Rollback, Commit, ret; rewrite Hftx;
        eexists; eexists; exists [EvExec stmt args; EvStmtClose stmt];
        (split; [reflexivity | split; [reflexivity | split]]);
        cbn; rewrite ?Hft, <- ?app_assoc;
        try reflexivity; split; congruence.
    + cbn. unfold Rollback, ret. cbn. rewrite Htx'.
      eexists. eexists. eexists. eexists. eexists.
      exists [EvExec stmt args; EvStmtClose stmt].
      split; [reflexivity | split; [reflexivity | split]].
      * cbn. rewrite Htr', <- !app_assoc. reflexivity.
      * split; [congruence | discriminate].
  - cbn. unfold Rollback, ret. cbn. rewrite Htx'.
    eexists. eexists. eexists. eexists. eexists. exists [].
    split; [reflexivity | split; [reflexivity | split]].
    + cbn. rewrite Htr', <- !app_assoc. reflexivity.
    + split; [congruence | discriminate].
Qed.

Lemma Transaction_write_uses_handle_witness :
  exists n e st1 r st' mid,
    Execute Demo.driverNoCount "delete from users" []
      (set_tx (Some 5) (log_call EvBegin Sample.st0)) = Ret (n, e) st1 /\
    Transaction Demo.driverNoCount
      [executeStep Demo.driverNoCount "delete from users" []] Sample.st0
      = Ret r st' /\
    trace st'
      = trace Sample.st0 ++ EvBegin :: EvPrepare (ViaTx 5) "delete from users"
          :: mid ++
        [match e with
         | Some _ => EvRollback (Some 5)
         | None => EvCommit (Some 5)
         end] /\
    (forall x, e = Some x -> r = Some x) /\
    (e = None -> r = tx_Commit Demo.driverNoCount (trace st1) (Some 5)).
Proof.
  apply (Transaction_write_uses_handle Demo.driverNoCount "delete from users" []
           Sample.st0 5).
  - reflexivity.
  - cbn. lia.
  - discriminate.
Defined.

(** ** Reads *)

Section Reads.
Variable drv : Driver.
Variable rep : Replica.
Variable strutForScan : Iface -> option (loc * list nat).

(** X20: [Query] releases what it acquires.  Whenever the statement was
    prepared, closing it is the last call made on the read connection; a
    cursor, if one was obtained, is closed just before that, and no cursor is
    closed otherwise.  This holds on every path, also when materialisation
    returns an error and when it panics. *)
Theorem Query_releases
    (sqlstring : string) (args : list Value) (st : State) (log : list ReadCall)
    (stmt : Stmt) :
  slave_Prepare rep (trace st) log sqlstring = inl stmt ->
  let after := snd (Query drv rep strutForScan sqlstring args st log) in
  let answer := stmt_Query rep (trace st) (log ++ [RcPrepare sqlstring])
                  stmt args in
  exists calls,
    after = log ++ [RcPrepare sqlstring; RcQuery stmt args] ++ calls ++
            [RcStmtClose stmt] /\
    calls = match answer with
            | inl _ => [RcRowsClose]
            | inr _ => []
            end.
Proof.
  intros Hprep after answer. subst after answer. unfold Query.
  destruct (recordSql_recorded drv sqlstring args st) as (Hrec & Htr & _).
  rewrite Hrec, Htr, Hprep.
  destruct (stmt_Query rep (trace st) (log ++ [RcPrepare sqlstring]) stmt args)
    as [rows | err].
  - exists [RcRowsClose].
    destruct (scan strutForScan rows (recorded drv sqlstring args st))
      as [[e rows'] st2 | c st2];
      cbn; rewrite <- !app_assoc; split; reflexivity.
  - exists []. cbn. rewrite <- !app_assoc. split; reflexivity.
Qed.

(** X21: a read leaves the write side alone.  On every path of [Query],
    also inside a transaction, no call is added to the history of the write
    connection and the transaction handle, the last generated identifier and
    the binding are as before; the statement text has been recorded as the
    last statement.  When preparing or querying fails, the driver's error is
    returned and the heap is untouched. *)
Theorem Query_leaves_write_side
    (sqlstring : string) (args : list Value) (st : State) (log : list ReadCall) :
  let o := fst (Query drv rep strutForScan sqlstring args st log) in
  let st' := finalState o in
  trace st' = trace st /\
  tx (ses st') = tx (ses st) /\
  lastInsertId (ses st') = lastInsertId (ses st) /\
  binder (ses st') = binder (ses st) /\
  lastSql (ses st') = Sprintf drv sqlstring args /\
  (forall e, slave_Prepare rep (trace st) log sqlstring = inr e ->
     o = Ret (Some e) st' /\ heap st' = heap st) /\
  (forall stmt e,
     slave_Prepare rep (trace st) log sqlstring = inl stmt ->
     stmt_Query rep (trace st) (log ++ [RcPrepare sqlstring]) stmt args = inr e ->
     o = Ret (Some e) st' /\ heap st' = heap st).
Proof.
  cbv zeta. unfold Query.
  destruct (recordSql_recorded drv sqlstring args st)
    as (Hrec & Htr & Hheap & Hb & Htx & Hid & _ & Hsql & _).
  rewrite Hrec, Htr.
  destruct (slave_Prepare rep (trace st) log sqlstring) as [stmt | err].
  - destruct (stmt_Query rep (trace st) (log ++ [RcPrepare sqlstring]) stmt args)
      as [rows | err] eqn:Hq.
    + pose proof (framed_scan strutForScan rows
                    (recorded drv sqlstring args st)) as [Hs Ht].
      destruct (scan strutForScan rows (recorded drv sqlstring args st))
        as [[e rows'] st2 | c st2]; cbn in Hs, Ht |- *;
        rewrite Hs, Ht; repeat split; auto; try congruence;
        match goal with
        | H : inl _ = inl _ |- _ => injection H as <-; congruence
        end.
    + cbn. repeat split; auto; try congruence;
        match goal with
        | H : inl _ = inl _ |- _ => injection H as <-; congruence
        end.
  - cbn. repeat split; auto; congruence.
Qed.

(** X22: a read into a single record that finds nothing.  When the session
    is bound under the Record shape and the cursor the database hands back
    has no row and no error, [Query] returns [ErrNoRows]; the cursor and the
    statement are closed, and the heap is as before. *)
Theorem Query_record_not_found
    (sqlstring : string) (args : list Value) (st : State) (log : list ReadCall)
    (stmt : Stmt) (rows : Rows) :
  BindType (binder (ses st)) = OBJECT_STRUCT ->
  slave_Prepare rep (trace st) log sqlstring = inl stmt ->
  stmt_Query rep (trace st) (log ++ [RcPrepare sqlstring]) stmt args = inl rows ->
  rs_pending rows = [] -> rs_end rows = None ->
  exists st',
    Query drv rep strutForScan sqlstring args st log
      = (Ret (Some ErrNoRows) st',
         log ++ [RcPrepare sqlstring; RcQuery stmt args; RcRowsClose;
                 RcStmtClose stmt]) /\
    heap st' = heap st.
Proof.
  intros Hshape Hprep Hquery Hnone Hend. unfold Query.
  destruct (recordSql_recorded drv sqlstring args st)
    as (Hrec & Htr & Hheap & Hb & _).
  rewrite Hrec, Htr, Hprep, Hquery.
  unfold scan, bind, getB. rewrite Hb, Hshape.
  unfold scanRow, Next, Err. rewrite Hnone, Hend. cbn.
  eexists. rewrite <- !app_assoc. split; [reflexivity | exact Hheap].
Qed.
End Reads.

Lemma Query_releases_witness :
  snd (Query Sample.driver Demo.replica Model.strutForScan
         "select id, name from users" [] Sample.boundMaps [])
  = [RcPrepare "select id, name from users";
     RcQuery 3 []; RcRowsClose; RcStmtClose 3].
Proof.
  destruct (Query_releases Sample.driver Demo.replica Model.strutForScan
              "select id, name from users" [] Sample.boundMaps [] 3 eq_refl)
    as (calls & Hafter & ->).
  exact Hafter.
Defined.

Lemma Query_leaves_write_side_witness :
  let o := fst (Query Sample.driver Demo.deadReplica Model.strutForScan
                  "select id from users" [] (set_tx (Some 8) Sample.boundUsers)
                  []) in
  o = Ret (Some (ErrDriver 9)) (finalState o) /\
  heap (finalState o) = heap (set_tx (Some 8) Sample.boundUsers).
Proof.
  apply (proj1 (proj2 (proj2 (proj2 (proj2 (proj2
           (Query_leaves_write_side Sample.driver Demo.deadReplica
              Model.strutForScan "select id from users" []
              (set_tx (Some 8) Sample.boundUsers) []))))))
           (ErrDriver 9)).
  reflexivity.
Defined.

Lemma Query_record_not_found_witness :
  exists st',
    Query Sample.driver
      (mkReplica (fun _ _ _ => inl 3) (fun _ _ _ _ => inl (Sample.cursor [])))
      Model.strutForScan "select id, name from users where id = ?" [VInt 9]
      Sample.boundUser []
    = (Ret (Some ErrNoRows) st',
       [] ++ [RcPrepare "select id, name from users where id = ?";
              RcQuery 3 [VInt 9]; RcRowsClose; RcStmtClose 3]) /\
    heap st' = heap Sample.boundUser.
Proof.
  apply (Query_record_not_found Sample.driver
           (mkReplica (fun _ _ _ => inl 3)
              (fun _ _ _ _ => inl (Sample.cursor [])))
           Model.strutForScan "select id, name from users where id = ?"
           [VInt 9] Sample.boundUser [] 3 (Sample.cursor []));
    reflexivity.
Defined.
